(** * Build-time localization of a VS Code extension

    A shallow embedding of [scripts/webpack/LocalizationPlugin.mjs] (the
    string-substitution plugin with its rollback guard) and of
    [scripts/injectLocalization.mts] (the manifest translator), with the
    properties their specification states about them. *)

From Stdlib Require Import NArith List Bool Lia String Ascii.
From stdpp Require Import gmap.
Import ListNotations.

Set Default Proof Using "Type".

(** ** JavaScript strings

    A JavaScript string is a sequence of UTF-16 code units, and a regular
    expression without the [u] flag matches code unit by code unit.  The
    CJK range the plugin looks for lies in the basic plane, so one code unit
    is one character there. *)

Abbreviation jsstring := (list N).

Definition js (s : string) : jsstring :=
  map N_of_ascii (list_ascii_of_string s).

Definition str_eqb (a b : jsstring) : bool := bool_decide (a = b).

(** [s.startsWith(p)] *)
Fixpoint startsWith (p s : jsstring) : bool :=
  match p, s with
  | [], _ => true
  | _ :: _, [] => false
  | a :: p', b :: s' => (a =? b)%N && startsWith p' s'
  end.

(** [s.endsWith(p)], which is what [/p$/.test(s)] decides for a literal [p]
    when the [m] flag is off. *)
Definition endsWith (p s : jsstring) : bool :=
  startsWith (rev p) (rev s).

(** [s] contains [p] as a substring. *)
Fixpoint includes (p s : jsstring) : bool :=
  startsWith p s ||
  match s with
  | [] => false
  | _ :: s' => includes p s'
  end.

(** ** Regular expressions used as tests

    [RegExp.prototype.test] only asks whether some substring belongs to the
    language of the expression, so priorities and greediness play no role;
    the expressions of [hasChineseIdentifier] are kept as syntax trees over
    character classes and decided with derivatives. *)

Inductive re : Type :=
| Void
| Eps
| Chr (p : N -> bool)
| Seq (a b : re)
| Alt (a b : re)
| Star (a : re).

Definition Plus (a : re) : re := Seq a (Star a).

Fixpoint Lit (s : jsstring) : re :=
  match s with
  | [] => Eps
  | c :: s' => Seq (Chr (N.eqb c)) (Lit s')
  end.

Fixpoint Alts (l : list re) : re :=
  match l with
  | [] => Void
  | [a] => a
  | a :: l' => Alt a (Alts l')
  end.

Fixpoint nullable (r : re) : bool :=
  match r with
  | Void => false
  | Eps => true
  | Chr _ => false
  | Seq a b => nullable a && nullable b
  | Alt a b => nullable a || nullable b
  | Star _ => true
  end.

Fixpoint is_void (r : re) : bool :=
  match r with
  | Void => true
  | Eps | Chr _ | Star _ => false
  | Seq a b => is_void a || is_void b
  | Alt a b => is_void a && is_void b
  end.

Fixpoint deriv (c : N) (r : re) : re :=
  match r with
  | Void | Eps => Void
  | Chr p => if p c then Eps else Void
  | Seq a b =>
      if nullable a then Alt (Seq (deriv c a) b) (deriv c b)
      else Seq (deriv c a) b
  | Alt a b => Alt (deriv c a) (deriv c b)
  | Star a => Seq (deriv c a) (Star a)
  end.

(** Some prefix of [s] matches [r]. *)
Fixpoint matches_prefix (r : re) (s : jsstring) : bool :=
  nullable r ||
  match s with
  | [] => false
  | c :: s' =>
      let d := deriv c r in
      if is_void d then false else matches_prefix d s'
  end.

(** [r.test(s)]: some substring of [s] matches [r]. *)
Fixpoint test (r : re) (s : jsstring) : bool :=
  matches_prefix r s ||
  match s with
  | [] => false
  | _ :: s' => test r s'
  end.

(** Character classes. *)

(** [[一-龥]] *)
Definition cjk (c : N) : bool := ((0x4e00 <=? c) && (c <=? 0x9fa5))%N.

(** [\s]: the white space and line terminator code units of ECMAScript. *)
Definition whitespace (c : N) : bool :=
  ((9 <=? c) && (c <=? 13) || (c =? 32) || (c =? 0xa0) || (c =? 0x1680)
   || (0x2000 <=? c) && (c <=? 0x200a) || (c =? 0x2028) || (c =? 0x2029)
   || (c =? 0x202f) || (c =? 0x205f) || (c =? 0x3000) || (c =? 0xfeff))%N.

Definition one_of (s : jsstring) (c : N) : bool := existsb (N.eqb c) s.

(** ** hasChineseIdentifier *)

(** [/(?:export|import|class|function|const|let|var)\s+[一-龥]/] *)
Definition re_declaration : re :=
  Seq (Alts (map Lit [js "export"; js "import"; js "class"; js "function";
                      js "const"; js "let"; js "var"]))
      (Seq (Plus (Chr whitespace)) (Chr cjk)).

(** [/[{.][一-龥]+[:\s]/] *)
Definition re_property : re :=
  Seq (Chr (one_of (js "{.")))
      (Seq (Plus (Chr cjk)) (Chr (fun c => (c =? 58)%N || whitespace c))).

(** [/[一-龥]+\s*\(/] *)
Definition re_call : re :=
  Seq (Plus (Chr cjk)) (Seq (Star (Chr whitespace)) (Chr (N.eqb 40))).

Definition hasChineseIdentifier (code : jsstring) : bool :=
  if test re_declaration code then true
  else if test re_property code then true
  else if test re_call code then true
  else false.

(** ** escapeRegExp *)

(** The class [[.*+?^${}()|[\]\\]]. *)
Definition special (c : N) : bool := one_of (js ".*+?^${}()|[]\") c.

(** [string.replace(/[.*+?^${}()|[\]\\]/g, '\\$&')] *)
Definition escapeRegExp (s : jsstring) : jsstring :=
  flat_map (fun c => if special c then [92%N; c] else [c]) s.


(** ** Global replacement of a literal

    [str.replace(regex, fn)] for a global [regex] that matches exactly the
    text [lit]: matches are found from left to right and do not overlap; the
    callback receives the offset of the match.  [skip] counts the code units
    of the current match that are still to be dropped.  An empty [lit]
    matches before every code unit and at the end. *)

Fixpoint replace_from (lit : jsstring) (f : nat -> jsstring)
    (pos skip : nat) (s : jsstring) : jsstring :=
  match s with
  | [] =>
      match skip, lit with
      | O, [] => f pos
      | _, _ => []
      end
  | c :: s' =>
      match skip with
      | S k => replace_from lit f (S pos) k s'
      | O =>
          if startsWith lit s then
            f pos ++
            match lit with
            | [] => c :: replace_from lit f (S pos) 0 s'
            | _ :: lit' => replace_from lit f (S pos) (length lit') s'
            end
          else c :: replace_from lit f (S pos) 0 s'
      end
  end.

(** The replacement is a function that ignores its arguments: every match
    becomes [rep], which is not read as a template. *)
Definition replaceAll (lit rep s : jsstring) : jsstring :=
  replace_from lit (fun _ => rep) 0 0 s.

(** The template literal [`${quoteChar}${s}${quoteChar}`]. *)
Definition quoted (quoteChar : N) (s : jsstring) : jsstring :=
  quoteChar :: s ++ [quoteChar].

(** The three quote characters, in the order of the array the source
    iterates over: double quote, single quote, backtick. *)
Definition dquote : N := 34.
Definition squote : N := 39.
Definition backtick : N := 96.
Definition quoteChars : list N := [dquote; squote; backtick].

(** ** The literal fragment of the pattern language

    A pattern source made of ordinary characters and of identity escapes (a
    backslash before a syntax character or a slash) denotes the literal text
    obtained by dropping the backslashes.  [literal_of] reads such a source;
    it answers [None] on any other source. *)

Definition syntax_char (c : N) : bool := one_of (js "^$\.*+?()[]{}|") c.

Fixpoint literal_of (src : jsstring) : option jsstring :=
  match src with
  | [] => Some []
  | c :: rest =>
      if (c =? 92)%N then
        match rest with
        | d :: rest' =>
            if syntax_char d || (d =? 47)%N
            then option_map (cons d) (literal_of rest')
            else None
        | [] => None
        end
      else if syntax_char c then None
      else option_map (cons c) (literal_of rest)
  end.

(** ** The regular expression engine

    [new RegExp(source, 'g')] either yields a regular expression or throws a
    [SyntaxError]; [str.replace(regex, template)] substitutes every match,
    reading [template] as a replacement template.  The plugin hands the
    sources and templates of the translation map to the engine as they are,
    so the engine is an interface of the development. *)

Inductive compiled (R : Type) : Type :=
| Regex (r : R)
| SyntaxError (message : jsstring).
Arguments Regex {R} r.
Arguments SyntaxError {R} message.

Class RegExpEngine : Type := {
  regexp : Type;
  RegExp_new : jsstring -> compiled regexp;
  String_replace : jsstring -> regexp -> jsstring -> jsstring
}.

(** An engine for the literal fragment, to run the plugin on patterns that
    are plain text.  On a source of the fragment it computes what the runtime
    computes; a source outside the fragment is answered with an error, which
    is what the runtime answers for an unbalanced parenthesis, the one such
    source used below.  The template is expanded as [GetSubstitution] does
    for a match without capture groups: [$$] is a dollar sign, [$&] the
    match, [$`] the text before it, [$'] the text after it, and any other
    dollar sign stands for itself. *)

Fixpoint GetSubstitution (matched before after template : jsstring) : jsstring :=
  match template with
  | [] => []
  | c :: rest =>
      if (c =? 36)%N then
        match rest with
        | d :: rest' =>
            if (d =? 36)%N then
              36%N :: GetSubstitution matched before after rest'
            else if (d =? 38)%N then
              matched ++ GetSubstitution matched before after rest'
            else if (d =? 96)%N then
              before ++ GetSubstitution matched before after rest'
            else if (d =? 39)%N then
              after ++ GetSubstitution matched before after rest'
            else c :: GetSubstitution matched before after rest
        | [] => [c]
        end
      else c :: GetSubstitution matched before after rest
  end.

Definition literal_replace (str lit template : jsstring) : jsstring :=
  replace_from lit
    (fun offset =>
       GetSubstitution lit (firstn offset str)
         (skipn (offset + length lit) str) template)
    0 0 str.

Definition literal_compile (src : jsstring) : compiled jsstring :=
  match literal_of src with
  | Some lit => Regex lit
  | None => SyntaxError (js "Invalid regular expression: /" ++ src ++ js "/")
  end.

Definition LiteralEngine : RegExpEngine :=
  {| regexp := jsstring;
     RegExp_new := literal_compile;
     String_replace := literal_replace |}.

(** ** The translation map, as the plugin reads it *)

Record Pattern : Type := {
  pattern_match : jsstring;
  pattern_replace : jsstring
}.

Record Webviews : Type := {
  exact : option (list (jsstring * jsstring));
  patterns : option (list Pattern)
}.

Record StatusBar : Type := {
  statusBar_patterns : option (list Pattern)
}.

(** [exact] lists the entries in the order of [Object.entries]. *)
Record L10nMap : Type := {
  webviews : option Webviews;
  statusBar : option StatusBar
}.

(** ** What the plugin writes to the console *)

Inductive console_event : Type :=
| warn_rollback_exact (en zh : jsstring)
| warn_rollback_pattern (source : jsstring)
| warn_rollback_statusBar (source : jsstring)
| warn_regexp_error (source message : jsstring)
| log_file (filename : jsstring) (replacements rollbacks : nat)
| warn_missing_map (path : string)
| error_load_map (path : string)
| log_disabled
| log_skipped
| log_enabled (path : string).

(** ** replaceStrings *)

(** The local variables of [replaceStrings], and the console. *)
Record run : Type := {
  result : jsstring;
  replacements : nat;
  rollbacks : nat;
  console : list console_event
}.

Definition start (source : jsstring) : run :=
  {| result := source; replacements := 0; rollbacks := 0; console := [] |}.

(** The body of the [forEach] over the quote characters: [acc] holds
    [result] and [replaced]. *)
Definition quote_pass (en zh : jsstring) (acc : jsstring * bool)
    (quoteChar : N) : jsstring * bool :=
  let '(result, replaced) := acc in
  let newResult :=
    replaceAll (quoted quoteChar en) (quoted quoteChar zh) result in
  if negb (str_eqb newResult result) then (newResult, true)
  else (result, replaced).

(** The body of the loop over [webviews.exact]. *)
Definition exact_step (st : run) (entry : jsstring * jsstring) : run :=
  let '(en, zh) := entry in
  if startsWith (js "_") en then st
  else
    let beforeReplace := result st in
    let '(result', replaced) :=
      fold_left (quote_pass en zh) quoteChars (beforeReplace, false) in
    if replaced && hasChineseIdentifier result'
       && negb (hasChineseIdentifier beforeReplace)
    then {| result := beforeReplace;
            replacements := replacements st;
            rollbacks := S (rollbacks st);
            console := console st ++ [warn_rollback_exact en zh] |}
    else if replaced
    then {| result := result';
            replacements := S (replacements st);
            rollbacks := rollbacks st;
            console := console st |}
    else {| result := result';
            replacements := replacements st;
            rollbacks := rollbacks st;
            console := console st |}.

Section Engine.

Context {engine : RegExpEngine}.

(** The body of the loops over [webviews.patterns] and [statusBar.patterns];
    they differ in the warning of the rollback only. *)
Definition pattern_step (warn : jsstring -> console_event) (st : run)
    (pattern : Pattern) : run :=
  match RegExp_new (pattern_match pattern) with
  | Regex regex =>
      let beforeReplace := result st in
      let result' :=
        String_replace beforeReplace regex (pattern_replace pattern) in
      if hasChineseIdentifier result'
         && negb (hasChineseIdentifier beforeReplace)
      then {| result := beforeReplace;
              replacements := replacements st;
              rollbacks := S (rollbacks st);
              console := console st ++ [warn (pattern_match pattern)] |}
      else if negb (str_eqb result' beforeReplace)
      then {| result := result';
              replacements := S (replacements st);
              rollbacks := rollbacks st;
              console := console st |}
      else {| result := result';
              replacements := replacements st;
              rollbacks := rollbacks st;
              console := console st |}
  | SyntaxError message =>
      {| result := result st;
         replacements := replacements st;
         rollbacks := rollbacks st;
         console :=
           console st ++ [warn_regexp_error (pattern_match pattern) message] |}
  end.

(** The three loops of [replaceStrings], for a loaded map. *)
Definition run_rules (l10nMap : L10nMap) (source : jsstring) : run :=
  let st := start source in
  let st :=
    match webviews l10nMap ≫= exact with
    | Some entries => fold_left exact_step entries st
    | None => st
    end in
  let st :=
    match webviews l10nMap ≫= patterns with
    | Some ps => fold_left (pattern_step warn_rollback_pattern) ps st
    | None => st
    end in
  match statusBar l10nMap ≫= statusBar_patterns with
  | Some ps => fold_left (pattern_step warn_rollback_statusBar) ps st
  | None => st
  end.

Record Stats : Type := {
  filesProcessed : nat;
  stringsReplaced : nat
}.

Record Plugin : Type := {
  l10nPath : string;
  enabled : bool;
  verbose : bool;
  l10nMap : option L10nMap;
  stats : Stats
}.

Definition with_stats (this : Plugin) (s : Stats) : Plugin :=
  {| l10nPath := l10nPath this; enabled := enabled this;
     verbose := verbose this; l10nMap := l10nMap this; stats := s |}.

(** [replaceStrings(source, filename)]: the returned text, the plugin with
    its updated statistics, and the console output. *)
Definition replaceStrings (this : Plugin) (source filename : jsstring)
    : jsstring * Plugin * list console_event :=
  match l10nMap this with
  | None => (source, this, [])
  | Some m =>
      let st := run_rules m source in
      if (0 <? replacements st) || (0 <? rollbacks st) then
        (result st,
         with_stats this
           {| filesProcessed := S (filesProcessed (stats this));
              stringsReplaced := stringsReplaced (stats this) + replacements st |},
         console st ++
         (if verbose this
          then [log_file filename (replacements st) (rollbacks st)]
          else []))
      else (result st, this, console st)
  end.

(** ** Rules

    The three loops apply one rule after the other; a rule is an entry of
    [webviews.exact], of [webviews.patterns] or of [statusBar.patterns]. *)

Inductive rule : Type :=
| exact_rule (en zh : jsstring)
| webviews_rule (pattern : Pattern)
| statusBar_rule (pattern : Pattern).

Definition entries_of {A : Type} (l : option (list A)) : list A :=
  match l with
  | Some l => l
  | None => []
  end.

Definition rules_of (l10nMap : L10nMap) : list rule :=
  map (fun entry => exact_rule (fst entry) (snd entry))
      (entries_of (webviews l10nMap ≫= exact))
  ++ map webviews_rule (entries_of (webviews l10nMap ≫= patterns))
  ++ map statusBar_rule (entries_of (statusBar l10nMap ≫= statusBar_patterns)).

Definition step (st : run) (r : rule) : run :=
  match r with
  | exact_rule en zh => exact_step st (en, zh)
  | webviews_rule pattern => pattern_step warn_rollback_pattern st pattern
  | statusBar_rule pattern => pattern_step warn_rollback_statusBar st pattern
  end.

(** The text a rule produces from [text], before the guard looks at it. *)
Definition candidate (r : rule) (text : jsstring) : jsstring :=
  match r with
  | exact_rule en zh =>
      if startsWith (js "_") en then text
      else fst (fold_left (quote_pass en zh) quoteChars (text, false))
  | webviews_rule pattern | statusBar_rule pattern =>
      match RegExp_new (pattern_match pattern) with
      | Regex regex => String_replace text regex (pattern_replace pattern)
      | SyntaxError _ => text
      end
  end.

(** The rule is counted as a replacement unless it is rolled back: the
    [replaced] flag of an exact entry, a changed text for a pattern. *)
Definition matched (r : rule) (text : jsstring) : bool :=
  match r with
  | exact_rule en zh =>
      if startsWith (js "_") en then false
      else snd (fold_left (quote_pass en zh) quoteChars (text, false))
  | webviews_rule _ | statusBar_rule _ =>
      negb (str_eqb (candidate r text) text)
  end.

(** The condition of the rollback. *)
Definition guard_fires (r : rule) (text : jsstring) : bool :=
  hasChineseIdentifier (candidate r text) && negb (hasChineseIdentifier text).

Definition step_text (text : jsstring) (r : rule) : jsstring :=
  if guard_fires r text then text else candidate r text.

(** The rules applied without the guard. *)
Definition unguarded (rules : list rule) (text : jsstring) : jsstring :=
  fold_left (fun t r => candidate r t) rules text.

(** Every text on the way of [unguarded] contains a signature. *)
Fixpoint signature_persists (rules : list rule) (text : jsstring) : bool :=
  hasChineseIdentifier text &&
  match rules with
  | [] => true
  | r :: rest => signature_persists rest (candidate r text)
  end.

(** The text of [replaceStrings] alone. *)
Definition replaced_text (this : Plugin) (source : jsstring) : jsstring :=
  fst (fst (replaceStrings this source [])).

End Engine.

(** ** The asset hook of [apply] *)

(** What [asset.source()] returns: a string or a buffer. *)
Inductive source_value : Type :=
| source_string (s : jsstring)
| source_buffer (bytes : list N).

Section Hooks.

Context {engine : RegExpEngine}.

(** [Buffer.prototype.toString] and [JSON.parse] at the type of the map
    ([None] when it throws) belong to the runtime. *)
Variable Buffer_toString : list N -> jsstring.
Variable JSON_parse_map : jsstring -> option L10nMap.

(** [/\.js$/.test(filename)] *)
Definition eligible (filename : jsstring) : bool :=
  endsWith (js ".js") filename.

(** The body of the loop over [Object.entries(assets)].  [updateAsset] is
    called only when the text changed; the new asset is a [RawSource] of the
    replaced text, whose [source()] is that string.  Nothing in the body
    throws here, so the [catch] clause has no counterpart. *)
Definition process_asset (this : Plugin) (entry : jsstring * source_value)
    : (jsstring * source_value) * Plugin * list console_event :=
  let '(filename, asset) := entry in
  if negb (eligible filename) then (entry, this, [])
  else
    let content :=
      match asset with
      | source_string s => s
      | source_buffer b => Buffer_toString b
      end in
    let '(replacedContent, this', out) :=
      replaceStrings this content filename in
    if negb (str_eqb replacedContent content)
    then ((filename, source_string replacedContent), this', out)
    else (entry, this', out).

(** The callback tapped on [processAssets]. *)
Fixpoint processAssets (this : Plugin) (assets : list (jsstring * source_value))
    : list (jsstring * source_value) * Plugin * list console_event :=
  match assets with
  | [] => ([], this, [])
  | entry :: rest =>
      let '(entry', this', out) := process_asset this entry in
      let '(rest', this'', out') := processAssets this' rest in
      (entry' :: rest', this'', out ++ out')
  end.

(** [loadLocalizationMap()], reading from the files [fs]. *)
Definition loadLocalizationMap (this : Plugin) (fs : gmap string jsstring)
    : option L10nMap * list console_event :=
  if negb (enabled this) then (None, [])
  else
    match fs !! l10nPath this with
    | None => (None, [warn_missing_map (l10nPath this)])
    | Some content =>
        match JSON_parse_map content with
        | Some m => (Some m, [])
        | None => (None, [error_load_map (l10nPath this)])
        end
    end.

(** [apply(compiler)]: the plugin after loading the map, whether the hooks
    were tapped, and the console output. *)
Definition apply (this : Plugin) (fs : gmap string jsstring)
    : Plugin * bool * list console_event :=
  if negb (enabled this) then (this, false, [log_disabled])
  else
    let '(m, out) := loadLocalizationMap this fs in
    let this' :=
      {| l10nPath := l10nPath this; enabled := enabled this;
         verbose := verbose this; l10nMap := m; stats := stats this |} in
    match m with
    | None => (this', false, out ++ [log_skipped])
    | Some _ => (this', true, out ++ [log_enabled (l10nPath this)])
    end.

(** One compilation: the assets after the hook ran, if it was tapped. *)
Definition compilation (this : Plugin) (fs : gmap string jsstring)
    (assets : list (jsstring * source_value))
    : list (jsstring * source_value) * Plugin * list console_event :=
  let '(this', tapped, out) := apply this fs in
  if tapped then
    let '(assets', this'', out') := processAssets this' assets in
    (assets', this'', out ++ out')
  else (assets, this', out).

End Hooks.

(** ** The manifest translator ([injectLocalization.mts]) *)

(** A string-valued optional field is truthy when present and non-empty. *)
Definition truthy (field : option jsstring) : bool :=
  match field with
  | Some (_ :: _) => true
  | _ => false
  end.

(** The records of the translation map.  A table is a parsed object: a
    lookup finds its own keys and, failing those, the members it inherits
    (see [Object_prototype] below). *)
Record CommandL10n : Type := {
  l10n_title : option jsstring;
  l10n_category : option jsstring
}.

Record ViewL10n : Type := {
  l10n_name : option jsstring;
  l10n_contextualTitle : option jsstring
}.

Record ConfigurationL10n : Type := {
  l10n_description : option jsstring;
  l10n_markdownDescription : option jsstring
}.

Record Contributions : Type := {
  l10n_commands : option (gmap jsstring CommandL10n);
  l10n_views : option (gmap jsstring ViewL10n);
  l10n_configuration : option (gmap jsstring ConfigurationL10n)
}.

Record LocalizationMap : Type := {
  contributions : Contributions
}.

(** The records of [package.json]. *)
Record Command : Type := {
  command : jsstring;
  title : jsstring;
  category : option jsstring
}.

Record View : Type := {
  view_id : jsstring;
  name : jsstring;
  contextualTitle : option jsstring
}.

Record Property : Type := {
  description : option jsstring;
  markdownDescription : option jsstring
}.

Record Configuration : Type := {
  properties : option (list (jsstring * Property))
}.

(** [views] and [properties] list their entries in the order of
    [Object.entries]. *)
Record PackageJson : Type := {
  commands : list Command;
  views : list (jsstring * list View);
  configuration : option Configuration
}.

(** The body of the loop over the commands: the command and the number of
    fields overwritten. *)
Definition translate_command (table : gmap jsstring CommandL10n)
    (cmd : Command) : Command * nat :=
  match table !! command cmd with
  | Some translation =>
      let '(cmd, n) :=
        match l10n_title translation with
        | Some ((_ :: _) as t) =>
            ({| command := command cmd; title := t;
                category := category cmd |}, 1)
        | _ => (cmd, 0)
        end in
      if truthy (l10n_category translation)
      then ({| command := command cmd; title := title cmd;
               category := l10n_category translation |}, S n)
      else (cmd, n)
  | None => (cmd, 0)
  end.

(** The members every object inherits from [Object.prototype]: the
    functions with their [name], and [__proto__], which is an object without
    one.  A lookup [table[id]] that finds no own key finds these.  None of
    them has a [title], a [category], a [description] or a
    [contextualTitle], so the loops over the commands and the configuration
    properties do nothing with them; the loop over the views reads the
    [name]. *)
Definition Object_prototype (key : jsstring) : option (option jsstring) :=
  if str_eqb key (js "constructor") then Some (Some (js "Object"))
  else if existsb (str_eqb key)
            [js "__defineGetter__"; js "__defineSetter__";
             js "hasOwnProperty"; js "__lookupGetter__";
             js "__lookupSetter__"; js "isPrototypeOf";
             js "propertyIsEnumerable"; js "toString"; js "valueOf";
             js "toLocaleString"]
  then Some (Some key)
  else if str_eqb key (js "__proto__") then Some None
  else None.

(** [l10nMap.contributions.views[id]], read at the two fields the loop
    looks at: an own entry, or an inherited member, whose [name] is the name
    of the function and which has no [contextualTitle].  The inherited
    members have none of the fields the other two loops read, so those find
    in them what they find in a missing key. *)
Definition view_translation (table : gmap jsstring ViewL10n)
    (id : jsstring) : option ViewL10n :=
  match table !! id with
  | Some translation => Some translation
  | None =>
      match Object_prototype id with
      | Some inherited =>
          Some {| l10n_name := inherited; l10n_contextualTitle := None |}
      | None => None
      end
  end.

Definition translate_view (table : gmap jsstring ViewL10n)
    (view : View) : View * nat :=
  match view_translation table (view_id view) with
  | Some translation =>
      let '(view, n) :=
        match l10n_name translation with
        | Some ((_ :: _) as t) =>
            ({| view_id := view_id view; name := t;
                contextualTitle := contextualTitle view |}, 1)
        | _ => (view, 0)
        end in
      if truthy (l10n_contextualTitle translation)
      then ({| view_id := view_id view; name := name view;
               contextualTitle := l10n_contextualTitle translation |}, S n)
      else (view, n)
  | None => (view, 0)
  end.

(** The body of the loop over the configuration properties. *)
Definition translate_property (table : gmap jsstring ConfigurationL10n)
    (entry : jsstring * Property) : (jsstring * Property) * nat :=
  let '(key, config) := entry in
  match table !! key with
  | Some translation =>
      let '(config, n) :=
        if truthy (l10n_description translation) && truthy (description config)
        then ({| description := l10n_description translation;
                 markdownDescription := markdownDescription config |}, 1)
        else (config, 0) in
      if truthy (l10n_markdownDescription translation)
         && truthy (markdownDescription config)
      then ((key, {| description := description config;
                     markdownDescription :=
                       l10n_markdownDescription translation |}), S n)
      else ((key, config), n)
  | None => (entry, 0)
  end.

(** A loop that rewrites every element and adds up the changes. *)
Fixpoint translate_all {A : Type} (f : A -> A * nat) (l : list A)
    : list A * nat :=
  match l with
  | [] => ([], 0)
  | x :: rest =>
      let '(x', n) := f x in
      let '(rest', m) := translate_all f rest in
      (x' :: rest', n + m)
  end.

(** The three passes over the manifest, and [changeCount]. *)
Definition translate (l10nMap : LocalizationMap) (packageJson : PackageJson)
    : PackageJson * nat :=
  let '(cmds, n1) :=
    match l10n_commands (contributions l10nMap) with
    | Some table => translate_all (translate_command table) (commands packageJson)
    | None => (commands packageJson, 0)
    end in
  let '(vs, n2) :=
    match l10n_views (contributions l10nMap) with
    | Some table =>
        translate_all
          (fun container =>
             let '(vs, n) := translate_all (translate_view table) (snd container) in
             ((fst container, vs), n))
          (views packageJson)
    | None => (views packageJson, 0)
    end in
  let '(conf, n3) :=
    match l10n_configuration (contributions l10nMap),
          configuration packageJson ≫= properties with
    | Some table, Some props =>
        let '(props', n) := translate_all (translate_property table) props in
        (Some {| properties := Some props' |}, n)
    | _, _ => (configuration packageJson, 0)
    end in
  ({| commands := cmds; views := vs; configuration := conf |}, n1 + n2 + n3).

(** The file system and the console of the script. *)
Inductive fs_event : Type :=
| fs_exists (path : string)
| fs_read (path : string)
| fs_write (path : string) (content : jsstring).

Inductive message : Type :=
| msg_start
| msg_skip
| msg_done (changeCount : nat)
| msg_target (path : string).

Record world : Type := {
  files : gmap string jsstring;
  trace : list fs_event;
  output : list message
}.

(** A computation either returns a value or throws; both leave a world. *)
Definition IO (A : Type) : Type := world -> option A * world.

#[export] Instance IO_ret : MRet IO := fun A a w => (Some a, w).

#[export] Instance IO_bind : MBind IO := fun A B k c w =>
  match c w with
  | (Some a, w') => k a w'
  | (None, w') => (None, w')
  end.

Definition record_event (e : fs_event) (w : world) : world :=
  {| files := files w; trace := trace w ++ [e]; output := output w |}.

Definition existsSync (path : string) : IO bool :=
  fun w => (Some (bool_decide (is_Some (files w !! path))),
            record_event (fs_exists path) w).

Definition readFileSync (path : string) : IO jsstring :=
  fun w => (files w !! path, record_event (fs_read path) w).

Definition writeFileSync (path : string) (content : jsstring) : IO unit :=
  fun w =>
    (Some tt,
     {| files := <[path := content]> (files w);
        trace := trace w ++ [fs_write path content];
        output := output w |}).

Definition console_log (m : message) : IO unit :=
  fun w =>
    (Some tt,
     {| files := files w; trace := trace w; output := output w ++ [m] |}).

(** A value of the runtime that may throw. *)
Definition try {A : Type} (v : option A) : IO A := fun w => (v, w).

(** ** The documents as they are parsed

    A parsed document need not have the fields its interface declares: the
    map may lack [contributions], the manifest may lack [contributes] or its
    [commands] and [views].  Reading a field of a missing object throws a
    [TypeError], and so does iterating over a missing list.  A document or
    a field of another shape than declared ([null], a number) is read as a
    missing one: it throws at the same dereference. *)

Record Contributes : Type := {
  contributes_commands : option (list Command);
  contributes_views : option (list (jsstring * list View));
  contributes_configuration : option Configuration
}.

Record PackageDocument : Type := {
  contributes : option Contributes
}.

Record L10nDocument : Type := {
  document_contributions : option Contributions
}.

(** The documents that have every declared field. *)
Definition package_document (packageJson : PackageJson) : PackageDocument :=
  {| contributes :=
       Some {| contributes_commands := Some (commands packageJson);
               contributes_views := Some (views packageJson);
               contributes_configuration := configuration packageJson |} |}.

Definition l10n_document (l10nMap : LocalizationMap) : L10nDocument :=
  {| document_contributions := Some (contributions l10nMap) |}.

(** The three passes on parsed documents; [None] is a [TypeError].  The
    manifest is dereferenced only inside the branch of a table that is
    there. *)
Definition commands_step (tables : Contributions) (c : option Contributes)
    : option (option Contributes * nat) :=
  match l10n_commands tables with
  | Some table =>
      c' ← c;
      cmds ← contributes_commands c';
      let '(cmds', n) := translate_all (translate_command table) cmds in
      Some (Some {| contributes_commands := Some cmds';
                    contributes_views := contributes_views c';
                    contributes_configuration := contributes_configuration c' |},
            n)
  | None => Some (c, 0)
  end.

Definition views_step (tables : Contributions) (c : option Contributes)
    : option (option Contributes * nat) :=
  match l10n_views tables with
  | Some table =>
      c' ← c;
      vs ← contributes_views c';
      let '(vs', n) :=
        translate_all
          (fun container =>
             let '(vs, n) := translate_all (translate_view table) (snd container) in
             ((fst container, vs), n))
          vs in
      Some (Some {| contributes_commands := contributes_commands c';
                    contributes_views := Some vs';
                    contributes_configuration := contributes_configuration c' |},
            n)
  | None => Some (c, 0)
  end.

Definition configuration_step (tables : Contributions)
    (c : option Contributes) : option (option Contributes * nat) :=
  match l10n_configuration tables with
  | Some table =>
      c' ← c;
      match contributes_configuration c' ≫= properties with
      | Some props =>
          let '(props', n) := translate_all (translate_property table) props in
          Some (Some {| contributes_commands := contributes_commands c';
                        contributes_views := contributes_views c';
                        contributes_configuration :=
                          Some {| properties := Some props' |} |},
                n)
      | None => Some (Some c', 0)
      end
  | None => Some (c, 0)
  end.

Definition translate_document (l10nMap : L10nDocument)
    (packageJson : PackageDocument) : option (PackageDocument * nat) :=
  tables ← document_contributions l10nMap;
  r1 ← commands_step tables (contributes packageJson);
  r2 ← views_step tables r1.1;
  r3 ← configuration_step tables r2.1;
  Some ({| contributes := r3.1 |}, r1.2 + r2.2 + r3.2).

Section Inject.

(** [JSON.parse] of the two documents ([None] when it throws) and
    [JSON.stringify(packageJson, null, '\t')]. *)
Variable JSON_parse_l10n : jsstring -> option L10nDocument.
Variable JSON_parse_package : jsstring -> option PackageDocument.
Variable JSON_stringify : PackageDocument -> jsstring.

Definition l10n_file : string := "l10n/zh-cn.json".
Definition package_file : string := "package.json".

Definition injectLocalization : IO unit :=
  _ ← console_log msg_start;
  present ← existsSync l10n_file;
  if negb present then console_log msg_skip
  else
    l10nText ← readFileSync l10n_file;
    l10nMap ← try (JSON_parse_l10n l10nText);
    packageText ← readFileSync package_file;
    packageJson ← try (JSON_parse_package packageText);
    translated ← try (translate_document l10nMap packageJson);
    _ ← writeFileSync package_file (JSON_stringify translated.1 ++ [10%N]);
    _ ← console_log (msg_done translated.2);
    console_log (msg_target package_file).

End Inject.

(** ** The passes taken apart *)

Definition exact_only (m : L10nMap) : L10nMap :=
  {| webviews := Some {| exact := webviews m ≫= exact; patterns := None |};
     statusBar := None |}.

Definition webviews_patterns_only (m : L10nMap) : L10nMap :=
  {| webviews := Some {| exact := None; patterns := webviews m ≫= patterns |};
     statusBar := None |}.

Definition statusBar_only (m : L10nMap) : L10nMap :=
  {| webviews := None; statusBar := statusBar m |}.

Definition properties_of (packageJson : PackageJson)
    : list (jsstring * Property) :=
  entries_of (configuration packageJson ≫= properties).

(** ** Sample data *)

Module Sample.

(** A plugin as the constructor leaves it, with the map [m] loaded. *)
Definition plugin (m : L10nMap) : Plugin :=
  {| l10nPath := "l10n/zh-cn.json"; enabled := true; verbose := false;
     l10nMap := Some m;
     stats := {| filesProcessed := 0; stringsReplaced := 0 |} |}.

Definition exact_map (entries : list (jsstring * jsstring)) : L10nMap :=
  {| webviews := Some {| exact := Some entries; patterns := None |};
     statusBar := None |}.

Definition dq (s : jsstring) : jsstring := quoted dquote s.

(** Translations, as UTF-16 code units. *)
Definition zh_open_changes : jsstring := [0x6253; 0x5f00; 0x66f4; 0x6539]%N.
Definition zh_translation : jsstring := [0x7ffb; 0x8bd1]%N.
Definition zh_close : jsstring := [0x5173; 0x95ed]%N.
Definition zh_settings : jsstring := [0x8bbe; 0x7f6e]%N.
Definition zh_open : jsstring := [0x6253; 0x5f00]%N.
Definition zh_enable : jsstring := [0x5f00; 0x542f]%N.
Definition zh_launch : jsstring := [0x542f; 0x52a8]%N.

(** The end-to-end example of the specification. *)
Definition open_changes_map : L10nMap :=
  exact_map [(js "Open Changes", zh_open_changes)].

Definition open_changes_text : jsstring :=
  js "const a = " ++ dq (js "Open Changes")
  ++ js "; function Open_Changes(){}".

Definition open_changes_expected : jsstring :=
  js "const a = " ++ dq zh_open_changes
  ++ js "; function Open_Changes(){}".

(** The key in each of the three quote styles, between unequal quotes and
    bare, as a function name and in a comment. *)
Definition open_map : L10nMap := exact_map [(js "Open", zh_open)].

Definition three_quotes_text : jsstring :=
  js "a = " ++ quoted dquote (js "Open")
  ++ js "; b = " ++ quoted squote (js "Open")
  ++ js "; c = " ++ quoted backtick (js "Open")
  ++ js "; function Open(){} // Open; d = " ++ [dquote] ++ js "Open"
  ++ [squote].

Definition three_quotes_expected : jsstring :=
  js "a = " ++ quoted dquote zh_open
  ++ js "; b = " ++ quoted squote zh_open
  ++ js "; c = " ++ quoted backtick zh_open
  ++ js "; function Open(){} // Open; d = " ++ [dquote] ++ js "Open"
  ++ [squote].

(** A translation that reads as a declaration, between two harmless ones. *)
Definition export_map : L10nMap :=
  exact_map [(js "Open Changes", zh_open_changes);
             (js "Export", js "export " ++ zh_translation);
             (js "Close", zh_close)].

Definition export_text : jsstring :=
  js "a(" ++ dq (js "Open Changes") ++ js "); b(" ++ dq (js "Export")
  ++ js "); c(" ++ dq (js "Close") ++ js ")".

Definition export_expected : jsstring :=
  js "a(" ++ dq zh_open_changes ++ js "); b(" ++ dq (js "Export")
  ++ js "); c(" ++ dq zh_close ++ js ")".

(** The same rollback caused by a pattern whose match sits behind a
    declaration keyword. *)
Definition export_pattern_map : L10nMap :=
  {| webviews :=
       Some {| exact := Some [(js "Open Changes", zh_open_changes)];
               patterns :=
                 Some [ {| pattern_match := js "Translation";
                           pattern_replace := zh_translation |};
                        {| pattern_match := js "Close";
                           pattern_replace := zh_close |} ] |};
     statusBar := None |}.

Definition export_pattern_text : jsstring :=
  js "export Translation; a(" ++ dq (js "Open Changes") ++ js ", "
  ++ dq (js "Close") ++ js ")".

Definition export_pattern_expected : jsstring :=
  js "export Translation; a(" ++ dq zh_open_changes ++ js ", "
  ++ dq zh_close ++ js ")".

(** Three rule sets whose matches feed one another. *)
Definition chain_map : L10nMap :=
  {| webviews :=
       Some {| exact := Some [(js "Open", zh_open)];
               patterns :=
                 Some [ {| pattern_match := zh_open;
                           pattern_replace := zh_enable |} ] |};
     statusBar :=
       Some {| statusBar_patterns :=
                 Some [ {| pattern_match := zh_enable;
                           pattern_replace := zh_launch |} ] |} |}.

(** The same rules with the two pattern sets exchanged. *)
Definition chain_swapped_map : L10nMap :=
  {| webviews :=
       Some {| exact := Some [(js "Open", zh_open)];
               patterns :=
                 Some [ {| pattern_match := zh_enable;
                           pattern_replace := zh_launch |} ] |};
     statusBar :=
       Some {| statusBar_patterns :=
                 Some [ {| pattern_match := zh_open;
                           pattern_replace := zh_enable |} ] |} |}.



(** Two entries, the translation of the second being the key of the
    first. *)
Definition relay_map : L10nMap := exact_map [(js "b", js "c"); (js "a", js "b")].

(** One entry whose translation holds its key between quotes. *)
Definition nested_map : L10nMap :=
  exact_map [(js "x", js "y" ++ quoted dquote (js "x") ++ js "y")].

(** A text that contains a signature inside a string literal, an entry that
    removes it and an entry that would bring one in. *)
Definition settings_map : L10nMap :=
  exact_map [(zh_settings ++ js " (Settings)", zh_settings);
             (js "Open", zh_open ++ js " (Open)")].

Definition settings_text : jsstring :=
  js "t(" ++ dq (zh_settings ++ js " (Settings)") ++ js "); t("
  ++ dq (js "Open") ++ js ")".

(** A text with a signature that no entry touches. *)
Definition corrupted_text : jsstring :=
  js "export " ++ zh_translation ++ js "; t(" ++ dq (js "Open") ++ js ")".

Definition open_paren_map : L10nMap :=
  exact_map [(js "Open", zh_open ++ js " (Open)")].

(** A pattern set with an unbalanced parenthesis in the middle. *)
Definition malformed_map : L10nMap :=
  {| webviews :=
       Some {| exact := None;
               patterns :=
                 Some [ {| pattern_match := js "Open";
                           pattern_replace := zh_open |};
                        {| pattern_match := js "(";
                           pattern_replace := zh_close |};
                        {| pattern_match := js "Close";
                           pattern_replace := zh_close |} ] |};
     statusBar := None |}.

(** Build output. *)
Definition assets : list (jsstring * source_value) :=
  [ (js "extension.js", source_string open_changes_text);
    (js "home.html", source_string open_changes_text);
    (js "extension.js.map", source_string open_changes_text) ].

(** A manifest with two configuration properties, the second of them
    without a markdown description. *)
Definition blame_property : Property :=
  {| description := Some (js "Blame format");
     markdownDescription := Some (js "Blame **format**") |}.

Definition mode_property : Property :=
  {| description := Some (js "Active mode"); markdownDescription := None |}.

Definition manifest : PackageJson :=
  {| commands :=
       [ {| command := js "gitlens.showGraph"; title := js "Show Graph";
            category := Some (js "GitLens") |} ];
     views := [];
     configuration :=
       Some {| properties :=
                 Some [ (js "gitlens.blame.format", blame_property);
                        (js "gitlens.mode.active", mode_property) ] |} |}.

Definition configuration_l10n : gmap jsstring ConfigurationL10n :=
  <[ js "gitlens.blame.format" :=
       {| l10n_description := Some zh_settings;
          l10n_markdownDescription := Some zh_open |} ]>
  (<[ js "gitlens.mode.active" :=
       {| l10n_description := Some zh_close;
          l10n_markdownDescription := Some zh_launch |} ]> ∅).

Definition localization : LocalizationMap :=
  {| contributions :=
       {| l10n_commands := None; l10n_views := None;
          l10n_configuration := Some configuration_l10n |} |}.

(** A working tree without the translation map. *)
Definition bare_world : world :=
  {| files := {[ package_file := js "{}" ]}; trace := []; output := [] |}.

End Sample.

(** ** The language of a test expression

    The words an expression matches, as the grammar of regular expressions
    defines them; [test] is checked against it below. *)

Inductive matches : re -> jsstring -> Prop :=
| matches_eps : matches Eps []
| matches_chr (p : N -> bool) (c : N) : p c = true -> matches (Chr p) [c]
| matches_seq (a b : re) (s t : jsstring) :
    matches a s -> matches b t -> matches (Seq a b) (s ++ t)
| matches_alt_l (a b : re) (s : jsstring) : matches a s -> matches (Alt a b) s
| matches_alt_r (a b : re) (s : jsstring) : matches b s -> matches (Alt a b) s
| matches_star_nil (a : re) : matches (Star a) []
| matches_star_app (a : re) (s t : jsstring) :
    matches a s -> matches (Star a) t -> matches (Star a) (s ++ t).

(** The keywords of the first expression of [hasChineseIdentifier]. *)
Definition keywords : list jsstring :=
  [js "export"; js "import"; js "class"; js "function";
   js "const"; js "let"; js "var"].

(** ** The console of one rule *)

Section RuleLog.

Context {engine : RegExpEngine}.

(** The pattern source is rejected by the engine. *)
Definition malformed (r : rule) : bool :=
  match r with
  | exact_rule _ _ => false
  | webviews_rule pattern | statusBar_rule pattern =>
      match RegExp_new (pattern_match pattern) with
      | Regex _ => false
      | SyntaxError _ => true
      end
  end.

End RuleLog.

Definition is_rollback_warning (e : console_event) : bool :=
  match e with
  | warn_rollback_exact _ _ | warn_rollback_pattern _
  | warn_rollback_statusBar _ => true
  | _ => false
  end.

Definition is_regexp_warning (e : console_event) : bool :=
  match e with
  | warn_regexp_error _ _ => true
  | _ => false
  end.

(** ** Constructor and [done] hook of the plugin *)

(** The options object; a field is [None] when it is not given. *)
Record Options : Type := {
  options_l10nPath : option string;
  options_enabled : option bool;
  options_verbose : option bool
}.

(** [constructor(options)].  [default_l10nPath] stands for
    [path.join(process.cwd(), 'l10n', 'zh-cn.json')]; an empty path is falsy
    and gives way to it. *)
Definition constructor (default_l10nPath : string) (options : Options)
    : Plugin :=
  {| l10nPath :=
       match options_l10nPath options with
       | Some ((String _ _) as p) => p
       | _ => default_l10nPath
       end;
     enabled :=
       match options_enabled options with
       | Some false => false
       | _ => true
       end;
     verbose :=
       match options_verbose options with
       | Some true => true
       | _ => false
       end;
     l10nMap := None;
     stats := {| filesProcessed := 0; stringsReplaced := 0 |} |}.

(** The callback tapped on [done]: the two numbers it prints, if any. *)
Definition done_hook (this : Plugin) : option (nat * nat) :=
  if 0 <? filesProcessed (stats this)
  then Some (filesProcessed (stats this), stringsReplaced (stats this))
  else None.

Section AssetRuns.

Context {engine : RegExpEngine}.
Variable Buffer_toString : list N -> jsstring.

(** The text the hook reads from an asset. *)
Definition asset_text (asset : source_value) : jsstring :=
  match asset with
  | source_string s => s
  | source_buffer b => Buffer_toString b
  end.

(** The asset is eligible and the pass over its text counts a replacement
    or a rollback. *)
Definition active (m : L10nMap) (entry : jsstring * source_value) : bool :=
  eligible (fst entry) &&
  let st := run_rules m (asset_text (snd entry)) in
  (0 <? replacements st) || (0 <? rollbacks st).

(** The replacements the pass over an eligible asset counts. *)
Definition accepted (m : L10nMap) (entry : jsstring * source_value) : nat :=
  if eligible (fst entry)
  then replacements (run_rules m (asset_text (snd entry)))
  else 0.

End AssetRuns.

(** ** The three passes of [translate], one by one *)

Definition translate_container (table : gmap jsstring ViewL10n)
    (container : jsstring * list View) : (jsstring * list View) * nat :=
  let '(vs, n) := translate_all (translate_view table) (snd container) in
  ((fst container, vs), n).

Definition commands_pass (l10nMap : LocalizationMap)
    (packageJson : PackageJson) : list Command * nat :=
  match l10n_commands (contributions l10nMap) with
  | Some table => translate_all (translate_command table) (commands packageJson)
  | None => (commands packageJson, 0)
  end.

Definition views_pass (l10nMap : LocalizationMap)
    (packageJson : PackageJson) : list (jsstring * list View) * nat :=
  match l10n_views (contributions l10nMap) with
  | Some table => translate_all (translate_container table) (views packageJson)
  | None => (views packageJson, 0)
  end.

Definition configuration_pass (l10nMap : LocalizationMap)
    (packageJson : PackageJson) : option Configuration * nat :=
  match l10n_configuration (contributions l10nMap),
        configuration packageJson ≫= properties with
  | Some table, Some props =>
      let '(props', n) := translate_all (translate_property table) props in
      (Some {| properties := Some props' |}, n)
  | _, _ => (configuration packageJson, 0)
  end.

(** The number of entries a translation can touch. *)
Definition entries (packageJson : PackageJson) : nat :=
  length (commands packageJson)
  + list_sum (map (fun container => length (snd container))
                (views packageJson))
  + length (properties_of packageJson).

(** The identifiers of a manifest: command ids, view ids by container,
    configuration keys. *)
Definition identifiers (packageJson : PackageJson)
    : list jsstring * list (jsstring * list jsstring) * list jsstring :=
  (map command (commands packageJson),
   map (fun container => (fst container, map view_id (snd container)))
     (views packageJson),
   map fst (properties_of packageJson)).

(** ** The world after a run of the script that wrote nothing

    [events] are the file system events of the run, [messages] what it
    printed. *)
Definition stopped (w : world) (events : list fs_event)
    (messages : list message) : world :=
  {| files := files w; trace := trace w ++ events;
     output := output w ++ messages |}.

(** ** More sample data *)

Module Fixture.

(** A manifest with a command that has no category and a view that has
    no contextual title. *)
Definition graph_command : Command :=
  {| command := js "gitlens.showGraph"; title := js "Show Graph";
     category := None |}.

Definition home_view : View :=
  {| view_id := js "gitlens.views.home"; name := js "Home";
     contextualTitle := None |}.

Definition manifest : PackageJson :=
  {| commands := [graph_command];
     views := [(js "gitlens", [home_view])];
     configuration := None |}.

Definition localization : LocalizationMap :=
  {| contributions :=
       {| l10n_commands :=
            Some {[ js "gitlens.showGraph" :=
                      {| l10n_title := Some Sample.zh_open;
                         l10n_category := Some (js "GitLens") |} ]};
          l10n_views :=
            Some {[ js "gitlens.views.home" :=
                      {| l10n_name := Some Sample.zh_settings;
                         l10n_contextualTitle := None |} ]};
          l10n_configuration := None |} |}.

(** A map without any table. *)
Definition no_tables : LocalizationMap :=
  {| contributions :=
       {| l10n_commands := None; l10n_views := None;
          l10n_configuration := None |} |}.

(** A working tree with the map and the manifest, and parsers that know
    these two documents. *)
Definition tree : world :=
  {| files := {[ l10n_file := js "l10n"; package_file := js "manifest" ]};
     trace := []; output := [] |}.

Definition parse_l10n (text : jsstring) : option L10nDocument :=
  if str_eqb text (js "l10n") then Some (l10n_document localization)
  else None.

(** The parser of manifests also knows the empty object, a document
    without [contributes]. *)
Definition parse_package (text : jsstring) : option PackageDocument :=
  if str_eqb text (js "manifest") then Some (package_document manifest)
  else if str_eqb text (js "{}") then Some {| contributes := None |}
  else None.

Definition stringify (packageJson : PackageDocument) : jsstring :=
  js "manifest, translated".

(** A working tree whose map is not the document the parser knows. *)
Definition broken_tree : world :=
  {| files := {[ l10n_file := js "{"; package_file := js "manifest" ]};
     trace := []; output := [] |}.

(** A working tree whose manifest is the empty object. *)
Definition hollow_tree : world :=
  {| files := {[ l10n_file := js "l10n"; package_file := js "{}" ]};
     trace := []; output := [] |}.

(** Views whose ids are members of [Object.prototype], and a table of
    views that has neither as a key. *)
Definition constructor_view : View :=
  {| view_id := js "constructor"; name := js "Builder";
     contextualTitle := None |}.

Definition toString_view : View :=
  {| view_id := js "toString"; name := js "Text";
     contextualTitle := Some (js "As text") |}.

Definition inherited_manifest : PackageJson :=
  {| commands := [];
     views := [(js "gitlens", [constructor_view; toString_view])];
     configuration := None |}.

(** A build with the map of the end-to-end example on disk. *)
Definition disk : gmap string jsstring :=
  {[ "l10n/zh-cn.json"%string := js "map" ]}.

Definition parse_map (text : jsstring) : option L10nMap :=
  if str_eqb text (js "map") then Some Sample.open_changes_map else None.

Definition default_options : Options :=
  {| options_l10nPath := None; options_enabled := None;
     options_verbose := None |}.

Definition disabled_options : Options :=
  {| options_l10nPath := None; options_enabled := Some false;
     options_verbose := None |}.

End Fixture.

(** ** Texts as words between quote characters *)

Definition is_quote (c : N) : bool := one_of quoteChars c.

Definition quote_free (s : jsstring) : bool :=
  forallb (fun c => negb (is_quote c)) s.

(** The text behind the first word: each token is a quote character and
    the word behind it. *)
Definition text_of (l : list (N * jsstring)) : jsstring :=
  flat_map (fun t => fst t :: snd t) l.

Fixpoint tokenize (s : jsstring) : jsstring * list (N * jsstring) :=
  match s with
  | [] => ([], [])
  | c :: s' =>
      let '(w, l) := tokenize s' in
      if is_quote c then ([], (c, w) :: l) else (c :: w, l)
  end.

Definition tokens (s : jsstring) : list (N * jsstring) := snd (tokenize s).

(** The quoted key starts at the first token. *)
Definition hit (q : N) (en : jsstring) (l : list (N * jsstring)) : bool :=
  match l with
  | (q1, w1) :: (q2, _) :: _ => (q1 =? q)%N && str_eqb w1 en && (q2 =? q)%N
  | _ => false
  end.

(** The global replacement of the quoted key, on tokens: [consumed] says
    that the quote of the first token closed the match before it. *)
Fixpoint treplace (q : N) (en zh : jsstring) (consumed : bool)
    (l : list (N * jsstring)) : list (N * jsstring) :=
  match l with
  | [] => []
  | t :: rest =>
      if negb consumed && hit q en l
      then (fst t, zh) :: treplace q en zh true rest
      else t :: treplace q en zh false rest
  end.

Fixpoint occurs (q : N) (en : jsstring) (l : list (N * jsstring)) : bool :=
  match l with
  | [] => false
  | _ :: rest => hit q en l || occurs q en rest
  end.

(** Two quoted keys in a row that share the quote between them. *)
Fixpoint overlap (q : N) (en : jsstring) (l : list (N * jsstring)) : bool :=
  match l with
  | [] => false
  | _ :: rest => hit q en l && hit q en rest || overlap q en rest
  end.

Definition shares_quote (q : N) (en text : jsstring) : bool :=
  includes (quoted q en ++ en ++ [q]) text.

(** The entries of [webviews.exact] that the exact pass does not skip. *)
Definition plain_entries (m : L10nMap) : list (jsstring * jsstring) :=
  List.filter (fun entry => negb (startsWith (js "_") (fst entry)))
    (entries_of (webviews m ≫= exact)).


(** Tokens as [split] makes them: quote characters with words free of
    them. *)
Definition wf (l : list (N * jsstring)) : Prop :=
  Forall (fun t => is_quote (fst t) = true /\ quote_free (snd t) = true) l.

(** The replacements of an entry, one per quote character, on tokens. *)
Definition passes (en zh : jsstring) (qs : list N)
    (l : list (N * jsstring)) : list (N * jsstring) :=
  fold_left (fun l q => treplace q en zh false l) qs l.

(** Keys and translations without quote characters, and no translation
    that is a key. *)
Definition separate (entries : list (jsstring * jsstring)) : Prop :=
  (forall en zh, In (en, zh) entries ->
     quote_free en = true /\ quote_free zh = true) /\
  (forall en zh en' zh', In (en, zh) entries -> In (en', zh') entries ->
     zh <> en').

(** A rule of the exact pass: skipped, or one of [entries]. *)
Definition plain_rule (entries : list (jsstring * jsstring)) (r : rule)
    : Prop :=
  match r with
  | exact_rule en zh =>
      startsWith (js "_") en = true \/
      startsWith (js "_") en = false /\ In (en, zh) entries
  | _ => False
  end.

(** No key of [entries] shares a quote with itself in [text]. *)
Definition overlap_free (entries : list (jsstring * jsstring))
    (text : jsstring) : Prop :=
  forall en zh q, In (en, zh) entries -> In q quoteChars ->
    overlap q en (tokens text) = false.


(** The conditions of idempotence, on the entries the exact pass does not
    skip: no quote character in a key or a translation, no translation that
    is a key, and no key that shares a quote with itself in the text. *)
Definition quote_free_entries (entries : list (jsstring * jsstring)) : bool :=
  forallb (fun entry => quote_free (fst entry) && quote_free (snd entry))
    entries.

Definition no_translation_is_key (entries : list (jsstring * jsstring))
    : bool :=
  forallb
    (fun entry =>
       forallb (fun entry' => negb (str_eqb (snd entry) (fst entry')))
         entries)
    entries.

Definition no_shared_quote (entries : list (jsstring * jsstring))
    (text : jsstring) : bool :=
  forallb
    (fun entry =>
       forallb (fun q => negb (shares_quote q (fst entry) text)) quoteChars)
    entries.

(** * Properties *)

(** ** Strings *)

Lemma str_eqb_eq (a b : jsstring) : str_eqb a b = true <-> a = b.
Proof. unfold str_eqb. apply bool_decide_eq_true. Qed.

Lemma str_eqb_refl (a : jsstring) : str_eqb a a = true.
Proof. now apply str_eqb_eq. Qed.

Lemma startsWith_app (p s : jsstring) : startsWith p (p ++ s) = true.
Proof.
  induction p as [|c p IH]; simpl; [reflexivity|].
  now rewrite N.eqb_refl.
Qed.

Lemma startsWith_spec (p s : jsstring) :
  startsWith p s = true <-> exists t, s = p ++ t.
Proof.
  revert s. induction p as [|c p IH]; intros s; simpl.
  - split; [intros _; now exists s | reflexivity].
  - destruct s as [|d s].
    + split; [discriminate | intros [t Ht]; discriminate].
    + rewrite andb_true_iff, N.eqb_eq, IH. split.
      * intros [-> [t ->]]. now exists t.
      * intros [t Ht]. injection Ht as -> ->. split; [reflexivity | now exists t].
Qed.

Lemma includes_nil (s : jsstring) : includes [] s = true.
Proof. destruct s; reflexivity. Qed.

Lemma includes_cons (p : jsstring) (c : N) (s : jsstring) :
  includes p (c :: s) = false ->
  startsWith p (c :: s) = false /\ includes p s = false.
Proof. simpl. intros H. now apply orb_false_iff in H. Qed.

(** ** Literal replacement *)

(** Without an occurrence of [lit] the text is returned as it is. *)
Lemma replace_from_absent (lit : jsstring) (f : nat -> jsstring) (s : jsstring) :
  includes lit s = false ->
  forall pos, replace_from lit f pos 0 s = s.
Proof.
  induction s as [|c s IH]; intros H pos.
  - destruct lit; [discriminate H | reflexivity].
  - apply includes_cons in H as [H1 H2].
    cbn [replace_from]. rewrite H1. f_equal. now apply IH.
Qed.

Lemma replaceAll_absent (lit rep s : jsstring) :
  includes lit s = false -> replaceAll lit rep s = s.
Proof. intros H. now apply replace_from_absent. Qed.

(** The code units of a match are dropped. *)
Lemma replace_from_skip (lit : jsstring) (f : nat -> jsstring)
    (l s : jsstring) (pos : nat) :
  lit <> [] ->
  replace_from lit f pos (length l) (l ++ s)
  = replace_from lit f (pos + length l) 0 s.
Proof.
  intros Hlit. revert pos. induction l as [|c l IH]; intros pos; simpl.
  - rewrite Nat.add_0_r. destruct s; [|reflexivity].
    simpl. destruct lit; [contradiction | reflexivity].
  - rewrite IH. f_equal. lia.
Qed.

(** The leftmost occurrence is replaced and the search goes on behind it. *)
Lemma replace_from_first (lit : jsstring) (f : nat -> jsstring)
    (pre post : jsstring) :
  lit <> [] ->
  (forall i, i < length pre ->
     startsWith lit (skipn i (pre ++ lit ++ post)) = false) ->
  forall pos,
    replace_from lit f pos 0 (pre ++ lit ++ post)
    = pre ++ f (pos + length pre)
          ++ replace_from lit f (pos + length pre + length lit) 0 post.
Proof.
  intros Hlit. induction pre as [|c pre IH]; intros Hfirst pos.
  - simpl. rewrite !Nat.add_0_r.
    destruct lit as [|a lit]; [contradiction|].
    change ((a :: lit) ++ post) with (a :: lit ++ post).
    cbn [replace_from].
    change (a :: lit ++ post) with ((a :: lit) ++ post).
    rewrite startsWith_app. f_equal.
    rewrite replace_from_skip by assumption.
    f_equal. simpl. lia.
  - change ((c :: pre) ++ lit ++ post) with (c :: pre ++ lit ++ post).
    cbn [replace_from].
    pose proof (Hfirst 0 ltac:(simpl; lia)) as H0. simpl in H0.
    rewrite H0. simpl. f_equal.
    rewrite IH.
    + replace (S pos + length pre) with (pos + S (length pre)) by lia.
      reflexivity.
    + intros i Hi. apply (Hfirst (S i)). simpl. lia.
Qed.

(** A constant replacement does not look at the offset. *)
Lemma replace_from_offset (lit rep s : jsstring) (pos pos' skip : nat) :
  replace_from lit (fun _ => rep) pos skip s
  = replace_from lit (fun _ => rep) pos' skip s.
Proof.
  revert pos pos' skip. induction s as [|c s IH]; intros pos pos' skip.
  - reflexivity.
  - cbn [replace_from]. destruct skip as [|k]; [|apply IH].
    destruct (startsWith lit (c :: s)).
    + f_equal. destruct lit; [f_equal|]; apply IH.
    + f_equal. apply IH.
Qed.

Lemma replaceAll_first (lit rep pre post : jsstring) :
  lit <> [] ->
  (forall i, i < length pre ->
     startsWith lit (skipn i (pre ++ lit ++ post)) = false) ->
  replaceAll lit rep (pre ++ lit ++ post)
  = pre ++ rep ++ replaceAll lit rep post.
Proof.
  intros Hlit H. unfold replaceAll.
  rewrite replace_from_first by assumption.
  do 2 f_equal. apply replace_from_offset.
Qed.

(** ** escapeRegExp yields a literal source *)

Lemma special_syntax_char (c : N) : special c = syntax_char c.
Proof.
  unfold special, syntax_char, one_of.
  match goal with
  | |- existsb _ ?a = existsb _ ?b =>
      let a' := eval vm_compute in a in
      let b' := eval vm_compute in b in
      change a with a'; change b with b'
  end.
  cbn [existsb].
  repeat match goal with
  | |- context [N.eqb c ?x] =>
      destruct (N.eqb_spec c x) as [->|?]; [reflexivity|]
  end.
  reflexivity.
Qed.

Lemma special_backslash : special 92 = true.
Proof. reflexivity. Qed.

Lemma literal_of_app_escape (s rest : jsstring) :
  literal_of (escapeRegExp s ++ rest) = option_map (app s) (literal_of rest).
Proof.
  induction s as [|c s IH]; simpl.
  - now destruct (literal_of rest).
  - destruct (special c) eqn:Hc; simpl.
    + rewrite <- special_syntax_char, Hc. simpl. rewrite IH.
      now destruct (literal_of rest).
    + destruct (N.eqb_spec c 92) as [->|_]; [now rewrite special_backslash in Hc|].
      rewrite <- special_syntax_char, Hc, IH.
      now destruct (literal_of rest).
Qed.

(** The source the exact pass compiles denotes the quoted key. *)
Lemma exact_source_literal (quoteChar : N) (en : jsstring) :
  literal_of
    (escapeRegExp [quoteChar] ++ escapeRegExp en ++ escapeRegExp [quoteChar])
  = Some (quoted quoteChar en).
Proof.
  rewrite !literal_of_app_escape.
  replace (escapeRegExp [quoteChar]) with (escapeRegExp [quoteChar] ++ [])
    by apply app_nil_r.
  rewrite literal_of_app_escape. reflexivity.
Qed.

(** ** One rule *)

Lemma quote_fold_replaced (en zh : jsstring) (qs : list N) (t : jsstring) :
  snd (fold_left (quote_pass en zh) qs (t, true)) = true.
Proof.
  revert t. induction qs as [|q qs IH]; intros t; simpl; [reflexivity|].
  now destruct (negb (str_eqb _ t)).
Qed.

(** When [replaced] stays false the text is the one the entry started with. *)
Lemma quote_fold_unreplaced (en zh : jsstring) (qs : list N) (t : jsstring) :
  snd (fold_left (quote_pass en zh) qs (t, false)) = false ->
  fst (fold_left (quote_pass en zh) qs (t, false)) = t.
Proof.
  induction qs as [|q qs IH]; simpl; [reflexivity|].
  destruct (negb (str_eqb _ t)).
  - now rewrite quote_fold_replaced.
  - exact IH.
Qed.

Lemma quote_pass_text (en zh : jsstring) (acc : jsstring * bool) (q : N) :
  fst (quote_pass en zh acc q)
  = replaceAll (quoted q en) (quoted q zh) (fst acc).
Proof.
  destruct acc as [t b]. unfold quote_pass. cbv zeta.
  destruct (str_eqb _ t) eqn:E; cbn [negb fst]; [|reflexivity].
  now apply str_eqb_eq in E.
Qed.

Lemma quote_fold_text (en zh : jsstring) (qs : list N)
    (acc : jsstring * bool) :
  fst (fold_left (quote_pass en zh) qs acc)
  = fold_left (fun t q => replaceAll (quoted q en) (quoted q zh) t) qs
      (fst acc).
Proof.
  revert acc. induction qs as [|q qs IH]; intros acc; simpl; [reflexivity|].
  now rewrite IH, quote_pass_text.
Qed.

Lemma quote_pass_absent (en zh : jsstring) (acc : jsstring * bool) (q : N) :
  includes (quoted q en) (fst acc) = false ->
  quote_pass en zh acc q = acc.
Proof.
  destruct acc as [t b]. cbn [fst]. intros H. unfold quote_pass. cbv zeta.
  now rewrite replaceAll_absent, str_eqb_refl.
Qed.

Lemma quote_fold_absent (en zh : jsstring) (qs : list N)
    (acc : jsstring * bool) :
  (forall q, In q qs -> includes (quoted q en) (fst acc) = false) ->
  fold_left (quote_pass en zh) qs acc = acc.
Proof.
  induction qs as [|q qs IH]; intros H; simpl; [reflexivity|].
  rewrite quote_pass_absent by (apply H; now left).
  apply IH. intros q' Hq'. apply H. now right.
Qed.

(** The loop body of the exact pass, written out: the three literal
    replacements one after the other, the flag, the guard. *)
Lemma exact_step_passes (st : run) (en zh : jsstring) :
  startsWith (js "_") en = false ->
  let pass q t := replaceAll (quoted q en) (quoted q zh) t in
  let t1 := pass dquote (result st) in
  let t2 := pass squote t1 in
  let t3 := pass backtick t2 in
  let replaced :=
    negb (str_eqb t1 (result st)) || negb (str_eqb t2 t1)
    || negb (str_eqb t3 t2) in
  exact_step st (en, zh)
  = if hasChineseIdentifier t3 && negb (hasChineseIdentifier (result st))
    then {| result := result st;
            replacements := replacements st;
            rollbacks := S (rollbacks st);
            console := console st ++ [warn_rollback_exact en zh] |}
    else {| result := t3;
            replacements :=
              if replaced then S (replacements st) else replacements st;
            rollbacks := rollbacks st;
            console := console st |}.
Proof.
  intros Hmeta pass t1 t2 t3 replaced.
  unfold exact_step. rewrite Hmeta.
  assert (Hfold : fold_left (quote_pass en zh) quoteChars (result st, false)
                  = (t3, replaced)).
  { unfold quoteChars. cbn [fold_left]. unfold quote_pass at 3.
    fold (pass dquote (result st)). fold t1.
    subst replaced.
    destruct (str_eqb t1 (result st)) eqn:E1; cbn [negb orb].
    - apply str_eqb_eq in E1.
      unfold quote_pass at 2. rewrite <- E1. fold (pass squote t1). fold t2.
      destruct (str_eqb t2 t1) eqn:E2; cbn [negb orb].
      + apply str_eqb_eq in E2.
        unfold quote_pass. rewrite <- E2. fold (pass backtick t2). fold t3.
        destruct (str_eqb t3 t2) eqn:E3; cbn [negb].
        * apply str_eqb_eq in E3. now rewrite E3.
        * reflexivity.
      + unfold quote_pass. fold (pass backtick t2). fold t3.
        destruct (str_eqb t3 t2) eqn:E3; cbn [negb].
        * apply str_eqb_eq in E3. now rewrite E3.
        * reflexivity.
    - unfold quote_pass at 2. fold (pass squote t1). fold t2.
      destruct (str_eqb t2 t1) eqn:E2; cbn [negb orb].
      + apply str_eqb_eq in E2.
        unfold quote_pass. rewrite <- E2. fold (pass backtick t2). fold t3.
        destruct (str_eqb t3 t2) eqn:E3; cbn [negb].
        * apply str_eqb_eq in E3. now rewrite E3.
        * reflexivity.
      + unfold quote_pass. fold (pass backtick t2). fold t3.
        destruct (str_eqb t3 t2) eqn:E3; cbn [negb].
        * apply str_eqb_eq in E3. now rewrite E3.
        * reflexivity. }
  rewrite Hfold. cbv beta iota.
  destruct replaced eqn:Hreplaced; [reflexivity|].
  subst replaced. apply orb_false_iff in Hreplaced as [H12 H3].
  apply orb_false_iff in H12 as [H1 H2].
  apply negb_false_iff, str_eqb_eq in H1, H2, H3.
  cbn [andb]. rewrite H3, H2, H1. now rewrite andb_negb_r.
Qed.

Section Steps.

Context {engine : RegExpEngine}.

Lemma guard_fires_same (r : rule) (text : jsstring) :
  candidate r text = text -> guard_fires r text = false.
Proof. unfold guard_fires. intros ->. apply andb_negb_r. Qed.

Lemma guard_fires_metadata (en zh text : jsstring) :
  startsWith (js "_") en = true ->
  guard_fires (exact_rule en zh) text = false.
Proof.
  intros H. apply guard_fires_same. unfold candidate. now rewrite H.
Qed.

Lemma exact_guard (en zh text : jsstring) :
  startsWith (js "_") en = false ->
  let acc := fold_left (quote_pass en zh) quoteChars (text, false) in
  snd acc && hasChineseIdentifier (fst acc)
    && negb (hasChineseIdentifier text)
  = guard_fires (exact_rule en zh) text.
Proof.
  intros Hmeta acc. unfold guard_fires, candidate. rewrite Hmeta. fold acc.
  destruct (snd acc) eqn:Hsnd; [reflexivity|].
  subst acc. rewrite (quote_fold_unreplaced _ _ _ _ Hsnd).
  simpl. symmetry. apply andb_negb_r.
Qed.

Ltac unfold_exact en zh st :=
  cbn [step]; unfold exact_step;
  destruct (startsWith (js "_") en) eqn:Hmeta;
  [| pose proof (exact_guard en zh (result st) Hmeta) as Hguard;
     cbv zeta in Hguard;
     destruct (fold_left (quote_pass en zh) quoteChars (result st, false))
       as [result' replaced] eqn:Hfold;
     cbn [fst snd] in Hguard; rewrite Hguard ].

Ltac unfold_pattern :=
  cbn [step]; unfold pattern_step, guard_fires, matched, candidate;
  destruct (RegExp_new _) as [regex|message].

(** The text after a rule depends on the text before it only. *)
Lemma step_result (st : run) (r : rule) :
  result (step st r) = step_text (result st) r.
Proof.
  unfold step_text. destruct r as [en zh|p|p].
  - unfold_exact en zh st.
    + rewrite guard_fires_metadata by assumption.
      unfold candidate. now rewrite Hmeta.
    + unfold candidate. rewrite Hmeta, Hfold.
      destruct (guard_fires _ _); [reflexivity|].
      now destruct replaced.
  - unfold_pattern.
    + destruct (_ && _); [reflexivity|]. now destruct (negb _).
    + now rewrite andb_negb_r.
  - unfold_pattern.
    + destruct (_ && _); [reflexivity|]. now destruct (negb _).
    + now rewrite andb_negb_r.
Qed.

Lemma step_rollbacks (st : run) (r : rule) :
  rollbacks (step st r)
  = if guard_fires r (result st) then S (rollbacks st) else rollbacks st.
Proof.
  destruct r as [en zh|p|p].
  - unfold_exact en zh st.
    + now rewrite guard_fires_metadata.
    + destruct (guard_fires _ _); [reflexivity|]. now destruct replaced.
  - unfold_pattern.
    + destruct (_ && _); [reflexivity|]. now destruct (negb _).
    + now rewrite andb_negb_r.
  - unfold_pattern.
    + destruct (_ && _); [reflexivity|]. now destruct (negb _).
    + now rewrite andb_negb_r.
Qed.

Lemma step_replacements (st : run) (r : rule) :
  replacements (step st r)
  = if guard_fires r (result st) then replacements st
    else if matched r (result st) then S (replacements st)
    else replacements st.
Proof.
  destruct r as [en zh|p|p].
  - unfold_exact en zh st.
    + rewrite guard_fires_metadata by assumption.
      unfold matched. now rewrite Hmeta.
    + unfold matched. rewrite Hmeta, Hfold. cbn [snd].
      destruct (guard_fires _ _); [reflexivity|]. now destruct replaced.
  - unfold_pattern.
    + destruct (_ && _); [reflexivity|]. now destruct (negb _).
    + now rewrite andb_negb_r, str_eqb_refl.
  - unfold_pattern.
    + destruct (_ && _); [reflexivity|]. now destruct (negb _).
    + now rewrite andb_negb_r, str_eqb_refl.
Qed.

(** A rule never introduces a signature into a text that has none. *)
Lemma step_text_clean (text : jsstring) (r : rule) :
  hasChineseIdentifier text = false ->
  hasChineseIdentifier (step_text text r) = false.
Proof.
  intros H. unfold step_text, guard_fires. rewrite H. cbn [negb].
  rewrite andb_true_r.
  now destruct (hasChineseIdentifier (candidate r text)) eqn:Hc.
Qed.

(** ** A sequence of rules *)

Lemma result_fold (rules : list rule) (st : run) :
  result (fold_left step rules st) = fold_left step_text rules (result st).
Proof.
  revert st. induction rules as [|r rules IH]; intros st; simpl;
    [reflexivity|].
  now rewrite IH, step_result.
Qed.

Lemma fold_left_through_map {A B C : Type} (f : A -> C -> A) (g : B -> C)
    (l : list B) (a : A) :
  fold_left f (map g l) a = fold_left (fun a x => f a (g x)) l a.
Proof. revert a. induction l as [|x l IH]; intros a; simpl; auto. Qed.

Lemma fold_left_pointwise {A B : Type} (f g : A -> B -> A) (l : list B)
    (a : A) :
  (forall a x, f a x = g a x) -> fold_left f l a = fold_left g l a.
Proof.
  intros H. revert a. induction l as [|x l IH]; intros a; simpl;
    [reflexivity|].
  now rewrite H, IH.
Qed.

Lemma fold_entries {A : Type} (f : run -> A -> run) (l : option (list A))
    (st : run) :
  match l with Some l => fold_left f l st | None => st end
  = fold_left f (entries_of l) st.
Proof. now destruct l. Qed.

(** The three loops are one loop over [rules_of]. *)
Lemma run_rules_fold (m : L10nMap) (source : jsstring) :
  run_rules m source = fold_left step (rules_of m) (start source).
Proof.
  unfold run_rules, rules_of.
  rewrite !fold_left_app, !fold_left_through_map, !fold_entries.
  cbn [step]. f_equal. f_equal.
  apply fold_left_pointwise. now intros st [en zh].
Qed.

Lemma fold_step_text_clean (rules : list rule) (text : jsstring) :
  hasChineseIdentifier text = false ->
  hasChineseIdentifier (fold_left step_text rules text) = false.
Proof.
  revert text. induction rules as [|r rules IH]; intros text H; simpl;
    [assumption|].
  now apply IH, step_text_clean.
Qed.

Lemma replaced_text_run (this : Plugin) (m : L10nMap) (source : jsstring) :
  l10nMap this = Some m ->
  replaced_text this source = result (run_rules m source).
Proof.
  intros Hm. unfold replaced_text, replaceStrings. rewrite Hm.
  now destruct (_ || _).
Qed.

End Steps.

(** * The claims *)

Section Claims.

Context {engine : RegExpEngine}.

(** C1. A text without a corruption signature stays without one:
    [replaceStrings] returns a text on which [hasChineseIdentifier] is
    false, and every rule of the pass whose substitution would bring a
    signature in is reverted to the text before that rule and counted as a
    rollback, not as a replacement. *)
Theorem C1_no_new_signature (this : Plugin) (source : jsstring) :
  hasChineseIdentifier source = false ->
  hasChineseIdentifier (replaced_text this source) = false /\
  forall m pre r post,
    l10nMap this = Some m ->
    rules_of m = pre ++ r :: post ->
    let st := fold_left step pre (start source) in
    hasChineseIdentifier (candidate r (result st)) = true ->
    result (step st r) = result st /\
    rollbacks (step st r) = S (rollbacks st) /\
    replacements (step st r) = replacements st.
Proof.
  intros Hclean. split.
  - destruct (l10nMap this) as [m|] eqn:Hm.
    + rewrite (replaced_text_run this m source Hm), run_rules_fold, result_fold.
      now apply fold_step_text_clean.
    + unfold replaced_text, replaceStrings. now rewrite Hm.
  - intros m pre r post _ _ st Hcand.
    assert (Hst : hasChineseIdentifier (result st) = false).
    { subst st. rewrite result_fold. now apply fold_step_text_clean. }
    assert (Hfires : guard_fires r (result st) = true).
    { unfold guard_fires. now rewrite Hcand, Hst. }
    rewrite step_result, step_rollbacks, step_replacements.
    unfold step_text. now rewrite Hfires.
Qed.

(** C2. A rollback is local to its rule: when a rule of the pass is
    discarded, the text is the one the earlier rules left, with their
    accepted replacements, the rule is not counted as a replacement, and the
    remaining rules are applied to that text, so the pass ends as if the rule
    were not in the map.  An entry whose translation reads [export] followed
    by CJK text is discarded while the entries before and behind it are
    applied; so is a pattern that would rewrite the name behind [export]. *)
Theorem C2_rollback_is_local :
  (forall m source pre r post,
     rules_of m = pre ++ r :: post ->
     let st := fold_left step pre (start source) in
     rollbacks (step st r) = S (rollbacks st) ->
     result (step st r) = fold_left step_text pre source /\
     replacements (step st r) = replacements st /\
     result (run_rules m source)
     = fold_left step_text post (fold_left step_text pre source)) /\
  (let st := run_rules Sample.export_map Sample.export_text in
   result st = Sample.export_expected /\
   replacements st = 2 /\ rollbacks st = 1) /\
  (let st :=
     @run_rules LiteralEngine Sample.export_pattern_map
       Sample.export_pattern_text in
   result st = Sample.export_pattern_expected /\
   replacements st = 2 /\ rollbacks st = 1).
Proof.
  split; [|split; vm_compute; auto].
  intros m source pre r post Hrules st Hroll.
  assert (Hfires : guard_fires r (result st) = true).
  { rewrite step_rollbacks in Hroll.
    destruct (guard_fires r (result st)); [reflexivity | lia]. }
  assert (Hst : result st = fold_left step_text pre source).
  { subst st. now rewrite result_fold. }
  repeat split.
  - rewrite step_result. unfold step_text. now rewrite Hfires.
  - rewrite step_replacements. now rewrite Hfires.
  - rewrite run_rules_fold, Hrules, result_fold, fold_left_app.
    cbn [fold_left start result]. rewrite <- Hst.
    unfold step_text at 2. now rewrite Hfires.
Qed.

(** C3. The exact pass touches a key only between two equal quote
    characters.  The source the pass compiles, the escaped key between two
    escaped quote characters, denotes the quoted key as a literal.  A key
    that starts with an underscore is skipped; a text in which the key does
    not occur between double quotes, single quotes or backticks is left as
    it is, whatever else it contains; the text an entry
    produces is the text after the three literal replacements of the quoted
    key by the translation in the same quotes, and each of them puts the
    quoted translation in the place of the leftmost quoted key and goes on
    behind it.  The example of the specification yields the expected text
    with one replacement.  The step of an entry is nothing but these three
    replacements: they are the only change to the text, the entry is counted
    once if one of them changed it, and the step is undone as a whole if the
    guard fires; a replacement without a quoted key to find returns its
    text.  On a text with the key in all three quote styles, between
    unequal quotes and bare, the three quoted keys are translated, each in
    its own quotes, and nothing else. *)
Theorem C3_exact_match_quotes :
  (forall q en,
     literal_compile
       (escapeRegExp [q] ++ escapeRegExp en ++ escapeRegExp [q])
     = Regex (quoted q en)) /\
  (forall st en zh,
     startsWith (js "_") en = true -> exact_step st (en, zh) = st) /\
  (forall st en zh,
     (forall q, In q quoteChars -> includes (quoted q en) (result st) = false) ->
     exact_step st (en, zh) = st) /\
  (forall en zh text,
     startsWith (js "_") en = false ->
     candidate (exact_rule en zh) text
     = fold_left (fun t q => replaceAll (quoted q en) (quoted q zh) t)
         quoteChars text) /\
  (forall q en zh pre post,
     (forall i, i < length pre ->
        startsWith (quoted q en) (skipn i (pre ++ quoted q en ++ post)) = false) ->
     replaceAll (quoted q en) (quoted q zh) (pre ++ quoted q en ++ post)
     = pre ++ quoted q zh ++ replaceAll (quoted q en) (quoted q zh) post) /\
  (replaceStrings (Sample.plugin Sample.open_changes_map)
     Sample.open_changes_text (js "extension.js")
   = (Sample.open_changes_expected,
      with_stats (Sample.plugin Sample.open_changes_map)
        {| filesProcessed := 1; stringsReplaced := 1 |},
      [])) /\
  (forall st en zh,
     startsWith (js "_") en = false ->
     let pass q t := replaceAll (quoted q en) (quoted q zh) t in
     let t1 := pass dquote (result st) in
     let t2 := pass squote t1 in
     let t3 := pass backtick t2 in
     let replaced :=
       negb (str_eqb t1 (result st)) || negb (str_eqb t2 t1)
       || negb (str_eqb t3 t2) in
     exact_step st (en, zh)
     = if hasChineseIdentifier t3 && negb (hasChineseIdentifier (result st))
       then {| result := result st;
               replacements := replacements st;
               rollbacks := S (rollbacks st);
               console := console st ++ [warn_rollback_exact en zh] |}
       else {| result := t3;
               replacements :=
                 if replaced then S (replacements st) else replacements st;
               rollbacks := rollbacks st;
               console := console st |}) /\
  (forall q en zh text,
     includes (quoted q en) text = false ->
     replaceAll (quoted q en) (quoted q zh) text = text) /\
  (replaceStrings (Sample.plugin Sample.open_map)
     Sample.three_quotes_text (js "extension.js")
   = (Sample.three_quotes_expected,
      with_stats (Sample.plugin Sample.open_map)
        {| filesProcessed := 1; stringsReplaced := 1 |},
      [])).
Proof.
  repeat apply conj.
  - intros q en. unfold literal_compile. now rewrite exact_source_literal.
  - intros st en zh H. unfold exact_step. now rewrite H.
  - intros [text n k out] en zh H. unfold exact_step. cbn [result] in *.
    destruct (startsWith (js "_") en); [reflexivity|].
    now rewrite quote_fold_absent.
  - intros en zh text H. unfold candidate. rewrite H.
    apply quote_fold_text.
  - intros q en zh pre post H. now apply replaceAll_first.
  - vm_compute. reflexivity.
  - intros st en zh H. now apply exact_step_passes.
  - intros q en zh text H. now apply replace_from_absent.
  - vm_compute. reflexivity.
Qed.

(** C4. The three passes run in a fixed order, each on the text the pass
    before it returned: the text of [replaceStrings] is the text of the
    [statusBar.patterns] pass applied to the text of the [webviews.patterns]
    pass applied to the text of the [webviews.exact] pass.  On rule sets
    whose matches overlap, a quoted key goes through all three rules in that
    order; with the two pattern sets exchanged it does not. *)
Theorem C4_pass_order :
  (forall m source,
     result (run_rules m source)
     = result (run_rules (statusBar_only m)
         (result (run_rules (webviews_patterns_only m)
            (result (run_rules (exact_only m) source)))))) /\
  (let st :=
     @run_rules LiteralEngine Sample.chain_map (Sample.dq (js "Open")) in
   result st = Sample.dq Sample.zh_launch /\
   replacements st = 3 /\ rollbacks st = 0) /\
  (let st :=
     @run_rules LiteralEngine Sample.chain_swapped_map
       (Sample.dq (js "Open")) in
   result st = Sample.dq Sample.zh_enable /\
   replacements st = 2 /\ rollbacks st = 0).
Proof.
  split; [|split; vm_compute; auto].
  intros m source. rewrite !run_rules_fold, !result_fold.
  unfold rules_of at 1. rewrite !fold_left_app.
  cbn [start result].
  unfold rules_of, exact_only, webviews_patterns_only, statusBar_only.
  cbn [webviews statusBar exact patterns mbind option_bind entries_of map].
  now rewrite !app_nil_r.
Qed.

(** C8. A pattern whose source the engine rejects is skipped: the step
    keeps the text and the counters and logs a warning, and the rules behind
    it are applied to the text the rules before it left, so the pass returns
    the text of the map without that pattern. *)
Theorem C8_malformed_pattern_skipped (pattern : Pattern) (message : jsstring) :
  RegExp_new (pattern_match pattern) = SyntaxError message ->
  (forall warn st,
     pattern_step warn st pattern
     = {| result := result st;
          replacements := replacements st;
          rollbacks := rollbacks st;
          console :=
            console st ++ [warn_regexp_error (pattern_match pattern) message] |}) /\
  (forall m source pre r post,
     r = webviews_rule pattern \/ r = statusBar_rule pattern ->
     rules_of m = pre ++ r :: post ->
     run_rules m source
     = fold_left step post (step (fold_left step pre (start source)) r) /\
     result (step (fold_left step pre (start source)) r)
     = result (fold_left step pre (start source)) /\
     result (run_rules m source) = fold_left step_text (pre ++ post) source).
Proof.
  intros Herr.
  assert (Hstep : forall warn st,
            pattern_step warn st pattern
            = {| result := result st;
                 replacements := replacements st;
                 rollbacks := rollbacks st;
                 console :=
                   console st
                   ++ [warn_regexp_error (pattern_match pattern) message] |}).
  { intros warn st. unfold pattern_step. now rewrite Herr. }
  split; [exact Hstep|].
  intros m source pre r post Hr Hrules.
  assert (Hres : forall st, result (step st r) = result st).
  { intros st. destruct Hr as [-> | ->]; cbn [step]; now rewrite Hstep. }
  repeat split.
  - now rewrite run_rules_fold, Hrules, fold_left_app.
  - apply Hres.
  - rewrite run_rules_fold, Hrules, result_fold, !fold_left_app.
    cbn [fold_left start result]. f_equal.
    specialize (Hres (fold_left step pre (start source))).
    now rewrite step_result, result_fold in Hres.
Qed.

Lemma fold_signature_persists (rules : list rule) (st : run) :
  signature_persists rules (result st) = true ->
  result (fold_left step rules st) = unguarded rules (result st) /\
  rollbacks (fold_left step rules st) = rollbacks st.
Proof.
  revert st. induction rules as [|r rules IH]; intros st H.
  - now split.
  - cbn [signature_persists] in H. apply andb_true_iff in H as [Hsig Hrest].
    assert (Hfires : guard_fires r (result st) = false).
    { unfold guard_fires. rewrite Hsig. apply andb_false_r. }
    assert (Hres : result (step st r) = candidate r (result st)).
    { rewrite step_result. unfold step_text. now rewrite Hfires. }
    cbn [fold_left unguarded]. rewrite <- Hres in Hrest |- *.
    destruct (IH _ Hrest) as [IH1 IH2]. split; [exact IH1|].
    rewrite IH2, step_rollbacks. now rewrite Hfires.
Qed.

Lemma fold_rollbacks_grow (rules : list rule) (st : run) :
  rollbacks st <= rollbacks (fold_left step rules st).
Proof.
  revert st. induction rules as [|r rules IH]; intros st; cbn [fold_left];
    [lia|].
  specialize (IH (step st r)). rewrite step_rollbacks in IH.
  destruct (guard_fires r (result st)); lia.
Qed.

(** C10, as amended.  A rule applied to a text that contains a signature
    is never rolled back: its substitution is accepted, also when it brings
    further signatures in, and it is counted as a replacement when it
    matched.  The guard stays off for as long as the running text contains a
    signature: if every text on the way does, the pass returns the unguarded
    text and counts no rollback.  Once the running text is clean the guard is
    back: a rule whose substitution would bring a signature in is rolled
    back, the text and the replacements stay, the rollback is counted, and the
    pass ends with a rollback counted and a clean text, whatever its input
    was. *)
Theorem C10_guard_needs_clean_text :
  (forall st r,
     hasChineseIdentifier (result st) = true ->
     result (step st r) = candidate r (result st) /\
     rollbacks (step st r) = rollbacks st /\
     replacements (step st r)
     = if matched r (result st) then S (replacements st)
       else replacements st) /\
  (forall m source,
     signature_persists (rules_of m) source = true ->
     result (run_rules m source) = unguarded (rules_of m) source /\
     rollbacks (run_rules m source) = 0) /\
  (forall st r,
     hasChineseIdentifier (result st) = false ->
     hasChineseIdentifier (candidate r (result st)) = true ->
     result (step st r) = result st /\
     rollbacks (step st r) = S (rollbacks st) /\
     replacements (step st r) = replacements st) /\
  (forall m source pre r post,
     rules_of m = pre ++ r :: post ->
     let st := fold_left step pre (start source) in
     hasChineseIdentifier (result st) = false ->
     hasChineseIdentifier (candidate r (result st)) = true ->
     result (run_rules m source) = fold_left step_text post (result st) /\
     rollbacks st < rollbacks (run_rules m source) /\
     hasChineseIdentifier (result (run_rules m source)) = false).
Proof.
  assert (Hback : forall st r,
            hasChineseIdentifier (result st) = false ->
            hasChineseIdentifier (candidate r (result st)) = true ->
            result (step st r) = result st /\
            rollbacks (step st r) = S (rollbacks st) /\
            replacements (step st r) = replacements st).
  { intros st r Hclean Hsig.
    assert (Hfires : guard_fires r (result st) = true).
    { unfold guard_fires. now rewrite Hsig, Hclean. }
    rewrite step_result, step_rollbacks, step_replacements.
    unfold step_text. now rewrite Hfires. }
  split; [|split; [|split]].
  - intros st r Hsig.
    assert (Hfires : guard_fires r (result st) = false).
    { unfold guard_fires. rewrite Hsig. apply andb_false_r. }
    rewrite step_result, step_rollbacks, step_replacements.
    unfold step_text. now rewrite Hfires.
  - intros m source H. rewrite run_rules_fold.
    now apply (fold_signature_persists (rules_of m) (start source)).
  - exact Hback.
  - intros m source pre r post Hrules st Hclean Hsig.
    destruct (Hback st r Hclean Hsig) as (Hres & Hroll & _).
    rewrite run_rules_fold, Hrules, fold_left_app. fold st.
    cbn [fold_left].
    pose proof (fold_rollbacks_grow post (step st r)) as Hgrow.
    rewrite result_fold, Hres.
    split; [reflexivity|]. split; [lia|].
    now apply fold_step_text_clean.
Qed.

End Claims.

(** ** The asset hook *)

Section HookClaims.

Context {engine : RegExpEngine}.
Variable Buffer_toString : list N -> jsstring.
Variable JSON_parse_map : jsstring -> option L10nMap.

Lemma process_asset_ineligible (this : Plugin) (filename : jsstring)
    (asset : source_value) :
  eligible filename = false ->
  process_asset Buffer_toString this (filename, asset)
  = ((filename, asset), this, []).
Proof. intros H. unfold process_asset. now rewrite H. Qed.

Lemma processAssets_ineligible (assets : list (jsstring * source_value))
    (this : Plugin) (i : nat) (filename : jsstring) (asset : source_value) :
  assets !! i = Some (filename, asset) ->
  eligible filename = false ->
  (processAssets Buffer_toString this assets).1.1 !! i
  = Some (filename, asset).
Proof.
  revert this i. induction assets as [|entry rest IH]; intros this i Hi Hel.
  - discriminate Hi.
  - cbn [processAssets].
    destruct (process_asset Buffer_toString this entry)
      as [[entry' this'] out] eqn:Hentry.
    destruct (processAssets Buffer_toString this' rest)
      as [[rest' this''] out'] eqn:Hrest.
    destruct i as [|i]; cbn in Hi |- *.
    + injection Hi as ->.
      rewrite process_asset_ineligible in Hentry by assumption.
      now injection Hentry as <- _ _.
    + specialize (IH this' i Hi Hel). now rewrite Hrest in IH.
Qed.

(** C9. An asset whose file name does not end in [.js] passes through:
    the hook returns it as it is, applies no rule to it and leaves the
    statistics and the console alone, and it is the same asset after the
    whole compilation. *)
Theorem C9_ineligible_pass_through (this : Plugin) (fs : gmap string jsstring)
    (assets : list (jsstring * source_value)) (i : nat)
    (filename : jsstring) (asset : source_value) :
  assets !! i = Some (filename, asset) ->
  eligible filename = false ->
  process_asset Buffer_toString this (filename, asset)
  = ((filename, asset), this, []) /\
  (processAssets Buffer_toString this assets).1.1 !! i
  = Some (filename, asset) /\
  (compilation Buffer_toString JSON_parse_map this fs assets).1.1 !! i
  = Some (filename, asset).
Proof.
  intros Hi Hel. repeat split.
  - now apply process_asset_ineligible.
  - now apply processAssets_ineligible.
  - unfold compilation.
    destruct (apply JSON_parse_map this fs) as [[this' tapped] out].
    destruct tapped; [|exact Hi].
    pose proof (processAssets_ineligible assets this' i filename asset Hi Hel)
      as H.
    now destruct (processAssets Buffer_toString this' assets) as [[? ?] ?].
Qed.

End HookClaims.

(** ** The manifest translator *)

Lemma translate_all_lookup {A : Type} (f : A -> A * nat) (l : list A)
    (i : nat) :
  (translate_all f l).1 !! i = (fun x => (f x).1) <$> (l !! i).
Proof.
  revert i. induction l as [|x l IH]; intros i; [reflexivity|].
  cbn [translate_all].
  destruct (f x) as [x' n] eqn:Hx.
  destruct (translate_all f l) as [l' k].
  destruct i as [|i]; cbn.
  - now rewrite Hx.
  - apply IH.
Qed.

Lemma properties_of_translate (l10nMap : LocalizationMap)
    (packageJson : PackageJson) :
  properties_of (translate l10nMap packageJson).1
  = match l10n_configuration (contributions l10nMap) with
    | Some table =>
        (translate_all (translate_property table)
           (properties_of packageJson)).1
    | None => properties_of packageJson
    end.
Proof.
  unfold translate, properties_of.
  destruct (match l10n_commands _ with Some _ => _ | None => _ end)
    as [cmds n1].
  destruct (match l10n_views _ with Some _ => _ | None => _ end) as [vs n2].
  destruct (l10n_configuration (contributions l10nMap)) as [table|];
    [|reflexivity].
  destruct (configuration packageJson ≫= properties) as [props|] eqn:Hprops.
  - cbn [entries_of].
    now destruct (translate_all (translate_property table) props).
  - cbn [fst configuration]. now rewrite Hprops.
Qed.

(** What one property becomes. *)
Lemma translate_property_fields (table : gmap jsstring ConfigurationL10n)
    (key : jsstring) (config : Property) :
  exists config' n,
    translate_property table (key, config) = ((key, config'), n) /\
    description config'
    = match table !! key with
      | Some translation =>
          if truthy (l10n_description translation)
             && truthy (description config)
          then l10n_description translation
          else description config
      | None => description config
      end /\
    markdownDescription config'
    = match table !! key with
      | Some translation =>
          if truthy (l10n_markdownDescription translation)
             && truthy (markdownDescription config)
          then l10n_markdownDescription translation
          else markdownDescription config
      | None => markdownDescription config
      end.
Proof.
  unfold translate_property.
  destruct (table !! key) as [translation|];
    [|exists config, 0; now repeat split].
  destruct (truthy (l10n_description translation) && truthy (description config));
    cbn [description markdownDescription];
    destruct (truthy (l10n_markdownDescription translation)
              && truthy (markdownDescription config));
    do 2 eexists; repeat split; reflexivity.
Qed.

(** C6. For every configuration property of the manifest: its description
    changes only when the translation of its key has a non-empty description
    and the property has a non-empty description already, its markdown
    description changes only when the translation has a non-empty one and the
    property has a non-empty one already, a property without a markdown
    description does not gain one, and a property that has both, with
    translations for both, gets both. *)
Theorem C6_configuration_gating (l10nMap : LocalizationMap)
    (packageJson : PackageJson) (i : nat) (key : jsstring)
    (config : Property) :
  properties_of packageJson !! i = Some (key, config) ->
  exists config',
    properties_of (translate l10nMap packageJson).1 !! i = Some (key, config') /\
    (description config' <> description config ->
     exists table translation,
       l10n_configuration (contributions l10nMap) = Some table /\
       table !! key = Some translation /\
       truthy (l10n_description translation) = true /\
       truthy (description config) = true /\
       description config' = l10n_description translation) /\
    (markdownDescription config' <> markdownDescription config ->
     exists table translation,
       l10n_configuration (contributions l10nMap) = Some table /\
       table !! key = Some translation /\
       truthy (l10n_markdownDescription translation) = true /\
       truthy (markdownDescription config) = true /\
       markdownDescription config' = l10n_markdownDescription translation) /\
    (markdownDescription config = None -> markdownDescription config' = None) /\
    (forall table translation,
       l10n_configuration (contributions l10nMap) = Some table ->
       table !! key = Some translation ->
       truthy (l10n_description translation) = true ->
       truthy (description config) = true ->
       truthy (l10n_markdownDescription translation) = true ->
       truthy (markdownDescription config) = true ->
       description config' = l10n_description translation /\
       markdownDescription config' = l10n_markdownDescription translation).
Proof.
  intros Hi. rewrite properties_of_translate.
  destruct (l10n_configuration (contributions l10nMap)) as [table|].
  - destruct (translate_property_fields table key config)
      as (config' & n & Htr & Hd & Hm).
    exists config'. rewrite translate_all_lookup, Hi.
    cbn [fmap option_fmap option_map]. rewrite Htr.
    split; [reflexivity|].
    destruct (table !! key) as [translation|] eqn:Hkey.
    + split; [|split; [|split]].
      * intros Hne. exists table, translation.
        destruct (truthy (l10n_description translation)),
          (truthy (description config)); cbn in Hd; try congruence.
        auto.
      * intros Hne. exists table, translation.
        destruct (truthy (l10n_markdownDescription translation)),
          (truthy (markdownDescription config)); cbn in Hm; try congruence.
        auto.
      * intros Hnone. rewrite Hm, Hnone. cbn. now rewrite andb_false_r.
      * intros table' translation' [= <-] Hkey' H1 H2 H3 H4.
        rewrite Hkey in Hkey'. injection Hkey' as <-.
        now rewrite Hd, Hm, H1, H2, H3, H4.
    + split; [|split; [|split]]; congruence.
  - exists config. split; [exact Hi|].
    split; [|split; [|split]]; congruence.
Qed.

(** ** The script *)

Section InjectClaims.

Variable JSON_parse_l10n : jsstring -> option L10nDocument.
Variable JSON_parse_package : jsstring -> option PackageDocument.
Variable JSON_stringify : PackageDocument -> jsstring.

(** C7. Without the translation map the script returns normally after
    the existence check: no file is read or written, the files are the ones
    it started with, and the console shows the start and the skip message,
    no count of changes. *)
Theorem C7_missing_map_is_noop (w : world) :
  files w !! l10n_file = None ->
  injectLocalization JSON_parse_l10n JSON_parse_package JSON_stringify w
  = (Some tt,
     {| files := files w;
        trace := trace w ++ [fs_exists l10n_file];
        output := output w ++ [msg_start; msg_skip] |}).
Proof.
  intros Habsent.
  unfold injectLocalization, mbind, IO_bind, console_log, existsSync,
    record_event.
  cbn [files trace output]. rewrite Habsent.
  rewrite bool_decide_eq_false_2 by (intros [? ?]; discriminate).
  cbn [negb files trace output]. now rewrite <- app_assoc.
Qed.

End InjectClaims.

(** * The claims at the sample data *)

(** C1 at the map with the [export] translation: the text has no
    signature, the second entry would bring one in and is rolled back. *)
Lemma C1_no_new_signature_witness :
  let this := Sample.plugin Sample.export_map in
  let pre := [exact_rule (js "Open Changes") Sample.zh_open_changes] in
  let r := exact_rule (js "Export") (js "export " ++ Sample.zh_translation) in
  let post := [exact_rule (js "Close") Sample.zh_close] in
  let st := @fold_left run rule (@step LiteralEngine) pre
              (start Sample.export_text) in
  hasChineseIdentifier Sample.export_text = false /\
  hasChineseIdentifier (@replaced_text LiteralEngine this Sample.export_text)
  = false /\
  result (@step LiteralEngine st r) = result st /\
  rollbacks (@step LiteralEngine st r) = S (rollbacks st) /\
  replacements (@step LiteralEngine st r) = replacements st.
Proof.
  intros this pre r post st.
  assert (Hclean : hasChineseIdentifier Sample.export_text = false)
    by (vm_compute; reflexivity).
  destruct (@C1_no_new_signature LiteralEngine this Sample.export_text Hclean)
    as [Htext Hrules].
  split; [exact Hclean|]. split; [exact Htext|].
  apply (Hrules Sample.export_map pre r post).
  - reflexivity.
  - reflexivity.
  - vm_compute. reflexivity.
Defined.

(** C2 at the same map. *)
Lemma C2_rollback_is_local_witness :
  let pre := [exact_rule (js "Open Changes") Sample.zh_open_changes] in
  let r := exact_rule (js "Export") (js "export " ++ Sample.zh_translation) in
  let post := [exact_rule (js "Close") Sample.zh_close] in
  let st := @fold_left run rule (@step LiteralEngine) pre
              (start Sample.export_text) in
  rollbacks (@step LiteralEngine st r) = S (rollbacks st) /\
  result (@step LiteralEngine st r)
  = fold_left (@step_text LiteralEngine) pre Sample.export_text /\
  replacements (@step LiteralEngine st r) = replacements st /\
  result (@run_rules LiteralEngine Sample.export_map Sample.export_text)
  = fold_left (@step_text LiteralEngine) post
      (fold_left (@step_text LiteralEngine) pre Sample.export_text).
Proof.
  intros pre r post st.
  assert (Hroll : rollbacks (@step LiteralEngine st r) = S (rollbacks st))
    by (vm_compute; reflexivity).
  split; [exact Hroll|].
  apply (proj1 (@C2_rollback_is_local LiteralEngine)
           Sample.export_map Sample.export_text pre r post).
  - reflexivity.
  - exact Hroll.
Defined.

(** C3 at a metadata key, at a text where the key is an identifier only,
    and at the text of the example. *)
Lemma C3_exact_match_quotes_witness :
  let st := start (js "function Open(){}") in
  let pre := js "const a = " in
  let post := js "; function Open_Changes(){}" in
  let q_en := quoted dquote (js "Open Changes") in
  let q_zh := quoted dquote Sample.zh_open_changes in
  exact_step st (js "_comment", Sample.zh_open) = st /\
  exact_step st (js "Open", Sample.zh_open) = st /\
  @candidate LiteralEngine (exact_rule (js "Open") Sample.zh_open)
    (js "function Open(){}")
  = fold_left
      (fun t q => replaceAll (quoted q (js "Open")) (quoted q Sample.zh_open) t)
      quoteChars (js "function Open(){}") /\
  replaceAll q_en q_zh (pre ++ q_en ++ post)
  = pre ++ q_zh ++ replaceAll q_en q_zh post /\
  exact_step (start Sample.three_quotes_text) (js "Open", Sample.zh_open)
  = {| result := Sample.three_quotes_expected; replacements := 1;
       rollbacks := 0; console := [] |} /\
  replaceAll (quoted squote (js "Open")) (quoted squote Sample.zh_open)
    (js "function Open(){}")
  = js "function Open(){}".
Proof.
  intros st pre post q_en q_zh.
  destruct (@C3_exact_match_quotes LiteralEngine)
    as (_ & Hmeta & Habsent & Hcand & Hfirst & _ & Hstep & Hnone & _).
  split; [|split; [|split; [|split; [|split]]]].
  - apply Hmeta. reflexivity.
  - apply Habsent. intros q [<-|[<-|[<-|[]]]]; reflexivity.
  - apply Hcand. reflexivity.
  - apply Hfirst. intros i Hi.
    do 10 (destruct i as [|i]; [reflexivity|]).
    simpl in Hi. lia.
  - rewrite (Hstep (start Sample.three_quotes_text) (js "Open")
               Sample.zh_open eq_refl).
    vm_compute. reflexivity.
  - apply Hnone. reflexivity.
Defined.


(** C6 at the property without a markdown description. *)
Lemma C6_configuration_gating_witness :
  properties_of Sample.manifest !! 1
  = Some (js "gitlens.mode.active", Sample.mode_property) /\
  exists config',
    properties_of (translate Sample.localization Sample.manifest).1 !! 1
    = Some (js "gitlens.mode.active", config') /\
    markdownDescription config' = None.
Proof.
  assert (Hi : properties_of Sample.manifest !! 1
               = Some (js "gitlens.mode.active", Sample.mode_property))
    by reflexivity.
  split; [exact Hi|].
  destruct (C6_configuration_gating Sample.localization Sample.manifest 1
              (js "gitlens.mode.active") Sample.mode_property Hi)
    as (config' & Hlookup & _ & _ & Hnone & _).
  exists config'. split; [exact Hlookup|]. apply Hnone. reflexivity.
Defined.

(** C7 at a working tree that holds the manifest only. *)
Lemma C7_missing_map_is_noop_witness :
  files Sample.bare_world !! l10n_file = None /\
  injectLocalization (fun _ => None) (fun _ => None) (fun _ => [])
    Sample.bare_world
  = (Some tt,
     {| files := files Sample.bare_world;
        trace := [fs_exists l10n_file];
        output := [msg_start; msg_skip] |}).
Proof.
  assert (Habsent : files Sample.bare_world !! l10n_file = None)
    by (vm_compute; reflexivity).
  split; [exact Habsent|].
  exact (C7_missing_map_is_noop (fun _ => None) (fun _ => None)
           (fun _ => []) Sample.bare_world Habsent).
Defined.

(** C8 at a pattern with an unbalanced parenthesis. *)
Lemma C8_malformed_pattern_skipped_witness :
  let pattern :=
    {| pattern_match := js "("; pattern_replace := Sample.zh_close |} in
  let message := js "Invalid regular expression: /(/" in
  let pre :=
    [webviews_rule {| pattern_match := js "Open";
                      pattern_replace := Sample.zh_open |}] in
  let post :=
    [webviews_rule {| pattern_match := js "Close";
                      pattern_replace := Sample.zh_close |}] in
  @RegExp_new LiteralEngine (js "(") = SyntaxError message /\
  result (@run_rules LiteralEngine Sample.malformed_map (js "Open Close"))
  = fold_left (@step_text LiteralEngine) (pre ++ post) (js "Open Close").
Proof.
  intros pattern message pre post.
  assert (Herr : @RegExp_new LiteralEngine (pattern_match pattern)
                 = SyntaxError message) by reflexivity.
  split; [exact Herr|].
  destruct (@C8_malformed_pattern_skipped LiteralEngine pattern message Herr)
    as [_ Hrun].
  apply (Hrun Sample.malformed_map (js "Open Close") pre
           (webviews_rule pattern) post).
  - now left.
  - reflexivity.
Defined.

(** C9 at the markup file of the sample build. *)
Lemma C9_ineligible_pass_through_witness :
  let this := Sample.plugin Sample.open_changes_map in
  let entry := (js "home.html", source_string Sample.open_changes_text) in
  Sample.assets !! 1 = Some entry /\
  eligible (js "home.html") = false /\
  (@processAssets LiteralEngine (fun b => b) this Sample.assets).1.1 !! 1
  = Some entry.
Proof.
  intros this entry.
  assert (Hi : Sample.assets !! 1 = Some entry) by reflexivity.
  assert (Hel : eligible (js "home.html") = false) by reflexivity.
  split; [exact Hi|]. split; [exact Hel|].
  exact (proj1 (proj2 (@C9_ineligible_pass_through LiteralEngine (fun b => b)
                         (fun _ => None) this ∅ Sample.assets 1
                         (js "home.html")
                         (source_string Sample.open_changes_text) Hi Hel))).
Defined.

(** C10, the amended claim, at a text with a signature that the entry does
    not touch: the entry brings a second signature in and is accepted. *)
Lemma C10_guard_needs_clean_text_witness :
  (@signature_persists LiteralEngine (rules_of Sample.open_paren_map)
     Sample.corrupted_text = true /\
   result (@run_rules LiteralEngine Sample.open_paren_map
             Sample.corrupted_text)
   = @unguarded LiteralEngine (rules_of Sample.open_paren_map)
       Sample.corrupted_text /\
   rollbacks (@run_rules LiteralEngine Sample.open_paren_map
                Sample.corrupted_text) = 0) /\
  (let pre := [exact_rule (Sample.zh_settings ++ js " (Settings)")
                 Sample.zh_settings] in
   let r := exact_rule (js "Open") (Sample.zh_open ++ js " (Open)") in
   let st := @fold_left run rule (@step LiteralEngine) pre
               (start Sample.settings_text) in
   hasChineseIdentifier Sample.settings_text = true /\
   hasChineseIdentifier (result st) = false /\
   hasChineseIdentifier (@candidate LiteralEngine r (result st)) = true /\
   result (@run_rules LiteralEngine Sample.settings_map Sample.settings_text)
   = result st /\
   rollbacks st
   < rollbacks (@run_rules LiteralEngine Sample.settings_map
                  Sample.settings_text)).
Proof.
  assert (Hsig : @signature_persists LiteralEngine
                   (rules_of Sample.open_paren_map) Sample.corrupted_text
                 = true) by (vm_compute; reflexivity).
  split.
  - split; [exact Hsig|].
    exact (proj1 (proj2 (@C10_guard_needs_clean_text LiteralEngine))
             Sample.open_paren_map Sample.corrupted_text Hsig).
  - intros pre r st.
    assert (Hin : hasChineseIdentifier Sample.settings_text = true)
      by (vm_compute; reflexivity).
    assert (Hclean : hasChineseIdentifier (result st) = false)
      by (vm_compute; reflexivity).
    assert (Hcand : hasChineseIdentifier
                      (@candidate LiteralEngine r (result st)) = true)
      by (vm_compute; reflexivity).
    split; [exact Hin|]. split; [exact Hclean|]. split; [exact Hcand|].
    destruct (proj2 (proj2 (proj2 (@C10_guard_needs_clean_text LiteralEngine)))
                Sample.settings_map Sample.settings_text pre r []
                eq_refl Hclean Hcand) as (Hres & Hroll & _).
    split; [exact Hres | exact Hroll].
Defined.

(** C10 as stated fails: the text contains a signature inside a string
    literal, the first entry is accepted and removes it, and the second
    entry, which would bring one in, is rolled back. *)
Lemma C10_counterexample :
  ~ (hasChineseIdentifier Sample.settings_text = true ->
     rollbacks (@run_rules LiteralEngine Sample.settings_map
                  Sample.settings_text) = 0).
Proof.
  intros H. specialize (H ltac:(vm_compute; reflexivity)).
  vm_compute in H. discriminate H.
Qed.

(** * Further properties *)

(** ** The test expressions against their language *)

Lemma matches_seq_iff (a b : re) (w : jsstring) :
  matches (Seq a b) w <->
  exists s t, w = s ++ t /\ matches a s /\ matches b t.
Proof.
  split.
  - intros H. inversion H; subst. eauto.
  - intros (s & t & -> & Ha & Hb). now constructor.
Qed.

Lemma matches_alt_iff (a b : re) (w : jsstring) :
  matches (Alt a b) w <-> matches a w \/ matches b w.
Proof.
  split.
  - intros H. inversion H; subst; auto.
  - intros [H|H]; [now apply matches_alt_l | now apply matches_alt_r].
Qed.

Lemma matches_chr_iff (p : N -> bool) (w : jsstring) :
  matches (Chr p) w <-> exists c, w = [c] /\ p c = true.
Proof.
  split.
  - intros H. inversion H; subst. eauto.
  - intros (c & -> & Hc). now constructor.
Qed.

Lemma matches_void (w : jsstring) : ~ matches Void w.
Proof. intros H. inversion H. Qed.

Lemma matches_eps_iff (w : jsstring) : matches Eps w <-> w = [].
Proof.
  split.
  - intros H. now inversion H.
  - intros ->. constructor.
Qed.

Lemma nullable_matches (r : re) : nullable r = true <-> matches r [].
Proof.
  induction r as [| |p|a IHa b IHb|a IHa b IHb|a IHa]; simpl.
  - split; [discriminate | intros H; inversion H].
  - split; [constructor | reflexivity].
  - split; [discriminate | intros H; inversion H].
  - rewrite andb_true_iff, IHa, IHb, matches_seq_iff. split.
    + intros [Ha Hb]. now exists [], [].
    + intros (s & t & Hw & Ha & Hb). symmetry in Hw.
      apply app_eq_nil in Hw as [-> ->]. now split.
  - now rewrite orb_true_iff, IHa, IHb, matches_alt_iff.
  - split; [constructor | reflexivity].
Qed.

(** A non-empty word of a star starts with a non-empty word of its body. *)
Lemma matches_star_cons (a : re) (c : N) (s : jsstring) :
  matches (Star a) (c :: s) ->
  exists s1 s2, s = s1 ++ s2 /\ matches a (c :: s1) /\ matches (Star a) s2.
Proof.
  intros H. remember (Star a) as r eqn:Hr. remember (c :: s) as w eqn:Hw.
  revert a c s Hr Hw.
  induction H as [| | | | | |b u t Hu _ Ht IHt]; intros a' c' s' Hr Hw;
    try discriminate.
  injection Hr as ->. destruct u as [|d u].
  - simpl in Hw. now apply IHt.
  - simpl in Hw. injection Hw as -> <-. now exists u, t.
Qed.

Lemma deriv_matches (c : N) (r : re) (s : jsstring) :
  matches (deriv c r) s <-> matches r (c :: s).
Proof.
  revert s. induction r as [| |p|a IHa b IHb|a IHa b IHb|a IHa]; intros s;
    simpl.
  - split; intros H; inversion H.
  - split; intros H; inversion H.
  - rewrite matches_chr_iff. destruct (p c) eqn:Hp.
    + rewrite matches_eps_iff. split.
      * intros ->. now exists c.
      * now intros (d & [= <- ->] & _).
    + split; [intros H; inversion H|].
      intros (d & [= <- ->] & Hd). congruence.
  - assert (Hseq : matches (Seq (deriv c a) b) s <->
                   exists s1 t, s = s1 ++ t /\ matches a (c :: s1)
                                /\ matches b t).
    { rewrite matches_seq_iff. split.
      - intros (s1 & t & -> & H1 & H2). apply IHa in H1. eauto.
      - intros (s1 & t & -> & H1 & H2). apply IHa in H1. eauto. }
    rewrite (matches_seq_iff a b). destruct (nullable a) eqn:Hnull.
    + rewrite matches_alt_iff, Hseq, IHb. split.
      * intros [(s1 & t & -> & H1 & H2) | Hb].
        -- now exists (c :: s1), t.
        -- apply nullable_matches in Hnull. now exists [], (c :: s).
      * intros (s1 & t & Hw & H1 & H2). destruct s1 as [|d s1].
        -- simpl in Hw. subst t. now right.
        -- injection Hw as <- ->. left. eauto.
    + rewrite Hseq. split.
      * intros (s1 & t & -> & H1 & H2). now exists (c :: s1), t.
      * intros (s1 & t & Hw & H1 & H2). destruct s1 as [|d s1].
        -- apply nullable_matches in H1. congruence.
        -- injection Hw as <- ->. eauto.
  - now rewrite !matches_alt_iff, IHa, IHb.
  - rewrite matches_seq_iff. split.
    + intros (s1 & t & -> & H1 & H2). apply IHa in H1.
      now apply (matches_star_app a (c :: s1) t).
    + intros H. apply matches_star_cons in H as (s1 & s2 & -> & H1 & H2).
      apply IHa in H1. eauto.
Qed.

Lemma is_void_matches (r : re) (w : jsstring) :
  is_void r = true -> ~ matches r w.
Proof.
  revert w. induction r as [| |p|a IHa b IHb|a IHa b IHb|a IHa]; intros w;
    simpl; try discriminate.
  - intros _. apply matches_void.
  - rewrite orb_true_iff, matches_seq_iff.
    intros [H|H] (s & t & _ & Ha & Hb); [now apply (IHa s) | now apply (IHb t)].
  - rewrite andb_true_iff, matches_alt_iff.
    intros [Ha Hb] [H|H]; [now apply (IHa w) | now apply (IHb w)].
Qed.

Lemma matches_prefix_iff (r : re) (s : jsstring) :
  matches_prefix r s = true <-> exists p q, s = p ++ q /\ matches r p.
Proof.
  revert r. induction s as [|c s IH]; intros r; simpl.
  - rewrite orb_false_r, nullable_matches. split.
    + intros H. now exists [], [].
    + intros (p & q & Hw & H). symmetry in Hw.
      now apply app_eq_nil in Hw as [-> _].
  - rewrite orb_true_iff, nullable_matches. split.
    + intros [H|H]; [now exists [], (c :: s)|].
      destruct (is_void (deriv c r)); [discriminate|].
      apply IH in H as (p & q & -> & H). apply deriv_matches in H.
      now exists (c :: p), q.
    + intros (p & q & Hw & H). destruct p as [|d p]; [now left|].
      injection Hw as <- ->. right. apply deriv_matches in H.
      destruct (is_void (deriv c r)) eqn:Hvoid.
      * now apply is_void_matches in H.
      * apply IH. eauto.
Qed.

(** [test] answers whether some substring is a word of the expression. *)
Lemma test_iff (r : re) (s : jsstring) :
  test r s = true <-> exists a p q, s = a ++ p ++ q /\ matches r p.
Proof.
  induction s as [|c s IH]; cbn [test].
  - rewrite orb_false_r, matches_prefix_iff. split.
    + intros (p & q & Hw & H). now exists [], p, q.
    + intros (a & p & q & Hw & H). symmetry in Hw.
      apply app_eq_nil in Hw as [_ Hw]. apply app_eq_nil in Hw as [-> _].
      now exists [], [].
  - rewrite orb_true_iff, IH, matches_prefix_iff. split.
    + intros [(p & q & Hw & H) | (a & p & q & -> & H)].
      * now exists [], p, q.
      * now exists (c :: a), p, q.
    + intros (a & p & q & Hw & H). destruct a as [|d a].
      * left. now exists p, q.
      * injection Hw as <- ->. right. now exists a, p, q.
Qed.

Lemma matches_Lit (s w : jsstring) : matches (Lit s) w <-> w = s.
Proof.
  revert w. induction s as [|c s IH]; intros w; simpl.
  - apply matches_eps_iff.
  - rewrite matches_seq_iff. split.
    + intros (u & t & -> & Hu & Ht). apply matches_chr_iff in Hu as (d & -> & Hd).
      apply N.eqb_eq in Hd as <-. apply IH in Ht as ->. reflexivity.
    + intros ->. exists [c], s. repeat split.
      * constructor. apply N.eqb_refl.
      * now apply IH.
Qed.

Lemma matches_Alts (l : list re) (w : jsstring) :
  matches (Alts l) w <-> exists r, In r l /\ matches r w.
Proof.
  induction l as [|a l IH].
  - simpl. split; [intros H; inversion H | intros (r & [] & _)].
  - destruct l as [|b l].
    + simpl. split.
      * intros H. exists a. auto.
      * intros (r & [->|[]] & H). exact H.
    + change (Alts (a :: b :: l)) with (Alt a (Alts (b :: l))).
      rewrite matches_alt_iff, IH. split.
      * intros [H | (r & Hr & H)].
        -- exists a. split; [now left | exact H].
        -- exists r. split; [now right | exact H].
      * intros (r & [<-|Hr] & H); [now left | right; eauto].
Qed.

Lemma matches_star_chr (p : N -> bool) (w : jsstring) :
  matches (Star (Chr p)) w <-> forallb p w = true.
Proof.
  split.
  - intros H. remember (Star (Chr p)) as r eqn:Hr. revert p Hr.
    induction H as [| | | | | |b u t Hu _ Ht IHt]; intros p' Hr;
      try discriminate; [reflexivity|].
    injection Hr as ->. apply matches_chr_iff in Hu as (c & -> & Hc).
    simpl. rewrite Hc. now apply IHt.
  - induction w as [|c w IH]; simpl; [constructor|].
    rewrite andb_true_iff. intros [Hc Hw].
    apply (matches_star_app (Chr p) [c] w); [now constructor | now apply IH].
Qed.

Lemma matches_plus_chr (p : N -> bool) (w : jsstring) :
  matches (Plus (Chr p)) w <-> w <> [] /\ forallb p w = true.
Proof.
  unfold Plus. rewrite matches_seq_iff. split.
  - intros (u & t & -> & Hu & Ht). apply matches_chr_iff in Hu as (c & -> & Hc).
    apply matches_star_chr in Ht. split; [discriminate|].
    simpl. now rewrite Hc.
  - intros [Hne Hw]. destruct w as [|c w]; [contradiction|].
    simpl in Hw. apply andb_true_iff in Hw as [Hc Hw].
    exists [c], w. repeat split; [now constructor | now apply matches_star_chr].
Qed.

Lemma one_of_brace_dot (d : N) :
  one_of (js "{.") d = true <-> d = 123%N \/ d = 46%N.
Proof.
  unfold one_of.
  match goal with
  | |- existsb _ ?a = true <-> _ =>
      let a' := eval vm_compute in a in change a with a'
  end.
  cbn [existsb]. rewrite !orb_true_iff, !N.eqb_eq. intuition discriminate.
Qed.

(** The words of the three expressions. *)
Lemma declaration_words (w : jsstring) :
  matches re_declaration w <->
  exists kw ws c,
    w = kw ++ ws ++ [c] /\ In kw keywords /\ ws <> []
    /\ forallb whitespace ws = true /\ cjk c = true.
Proof.
  unfold re_declaration. fold keywords.
  rewrite matches_seq_iff. split.
  - intros (u & t & -> & Hu & Ht).
    apply matches_Alts in Hu as (r & Hr & Hu).
    apply in_map_iff in Hr as (kw & <- & Hkw). apply matches_Lit in Hu as ->.
    apply matches_seq_iff in Ht as (ws & v & -> & Hws & Hv).
    apply matches_plus_chr in Hws as [Hne Hws].
    apply matches_chr_iff in Hv as (c & -> & Hc).
    now exists kw, ws, c.
  - intros (kw & ws & c & -> & Hkw & Hne & Hws & Hc).
    exists kw, (ws ++ [c]). repeat split.
    + apply matches_Alts. exists (Lit kw). split.
      * now apply in_map.
      * now apply matches_Lit.
    + constructor; [now apply matches_plus_chr | now constructor].
Qed.

Lemma property_words (w : jsstring) :
  matches re_property w <->
  exists d cs e,
    w = [d] ++ cs ++ [e] /\ (d = 123%N \/ d = 46%N) /\ cs <> []
    /\ forallb cjk cs = true /\ (e = 58%N \/ whitespace e = true).
Proof.
  unfold re_property. rewrite matches_seq_iff. split.
  - intros (u & t & -> & Hu & Ht).
    apply matches_chr_iff in Hu as (d & -> & Hd).
    apply one_of_brace_dot in Hd.
    apply matches_seq_iff in Ht as (cs & v & -> & Hcs & Hv).
    apply matches_plus_chr in Hcs as [Hne Hcs].
    apply matches_chr_iff in Hv as (e & -> & He).
    apply orb_true_iff in He. rewrite N.eqb_eq in He.
    now exists d, cs, e.
  - intros (d & cs & e & -> & Hd & Hne & Hcs & He).
    exists [d], (cs ++ [e]). repeat split.
    + constructor. now apply one_of_brace_dot.
    + constructor; [now apply matches_plus_chr|].
      constructor. apply orb_true_iff. now rewrite N.eqb_eq.
Qed.

Lemma call_words (w : jsstring) :
  matches re_call w <->
  exists cs ws,
    w = cs ++ ws ++ [40%N] /\ cs <> [] /\ forallb cjk cs = true
    /\ forallb whitespace ws = true.
Proof.
  unfold re_call. rewrite matches_seq_iff. split.
  - intros (cs & t & -> & Hcs & Ht).
    apply matches_plus_chr in Hcs as [Hne Hcs].
    apply matches_seq_iff in Ht as (ws & v & -> & Hws & Hv).
    apply matches_star_chr in Hws.
    apply matches_chr_iff in Hv as (c & -> & Hc). apply N.eqb_eq in Hc as <-.
    now exists cs, ws.
  - intros (cs & ws & -> & Hne & Hcs & Hws).
    exists cs, (ws ++ [40%N]). repeat split.
    + now apply matches_plus_chr.
    + constructor; [now apply matches_star_chr|].
      constructor. apply N.eqb_refl.
Qed.

Lemma hasChineseIdentifier_tests (code : jsstring) :
  hasChineseIdentifier code
  = test re_declaration code || (test re_property code || test re_call code).
Proof.
  unfold hasChineseIdentifier.
  now destruct (test re_declaration code), (test re_property code),
    (test re_call code).
Qed.

(** X1. [hasChineseIdentifier] is true exactly on the texts that contain
    one of three shapes: a keyword, at least one white space character and a
    CJK character; an opening brace or a dot, at least one CJK character and
    a colon or a white space character; at least one CJK character, any
    white space and an opening parenthesis. *)
Theorem X1_signature_shapes (code : jsstring) :
  hasChineseIdentifier code = true <->
  (exists pre kw ws c post,
     code = pre ++ (kw ++ ws ++ [c]) ++ post /\ In kw keywords /\ ws <> []
     /\ forallb whitespace ws = true /\ cjk c = true) \/
  (exists pre d cs e post,
     code = pre ++ ([d] ++ cs ++ [e]) ++ post /\ (d = 123%N \/ d = 46%N)
     /\ cs <> [] /\ forallb cjk cs = true
     /\ (e = 58%N \/ whitespace e = true)) \/
  (exists pre cs ws post,
     code = pre ++ (cs ++ ws ++ [40%N]) ++ post /\ cs <> []
     /\ forallb cjk cs = true /\ forallb whitespace ws = true).
Proof.
  rewrite hasChineseIdentifier_tests, !orb_true_iff, !test_iff.
  apply Morphisms_Prop.or_iff_morphism;
    [|apply Morphisms_Prop.or_iff_morphism].
  - split.
    + intros (a & w & q & -> & H).
      apply declaration_words in H as (kw & ws & c & -> & H).
      now exists a, kw, ws, c, q.
    + intros (a & kw & ws & c & q & -> & H).
      exists a, (kw ++ ws ++ [c]), q. split; [reflexivity|].
      apply declaration_words. now exists kw, ws, c.
  - split.
    + intros (a & w & q & -> & H).
      apply property_words in H as (d & cs & e & -> & H).
      now exists a, d, cs, e, q.
    + intros (a & d & cs & e & q & -> & H).
      exists a, ([d] ++ cs ++ [e]), q. split; [reflexivity|].
      apply property_words. now exists d, cs, e.
  - split.
    + intros (a & w & q & -> & H).
      apply call_words in H as (cs & ws & -> & H).
      now exists a, cs, ws, q.
    + intros (a & cs & ws & q & -> & H).
      exists a, (cs ++ ws ++ [40%N]), q. split; [reflexivity|].
      apply call_words. now exists cs, ws.
Qed.

Lemma cjk_head (cs : jsstring) :
  cs <> [] -> forallb cjk cs = true -> exists c, In c cs /\ cjk c = true.
Proof.
  destruct cs as [|c cs]; [contradiction|]. simpl.
  intros _ H. apply andb_true_iff in H as [Hc _]. exists c. auto.
Qed.

(** A signature holds a CJK character. *)
Lemma signature_has_cjk (code : jsstring) :
  hasChineseIdentifier code = true -> exists c, In c code /\ cjk c = true.
Proof.
  rewrite hasChineseIdentifier_tests, !orb_true_iff, !test_iff.
  intros [(a & w & q & -> & H) | [(a & w & q & -> & H) | (a & w & q & -> & H)]].
  - apply declaration_words in H as (kw & ws & c & -> & _ & _ & _ & Hc).
    exists c. split; [|exact Hc]. rewrite !in_app_iff. simpl. tauto.
  - apply property_words in H as (d & cs & e & -> & _ & Hne & Hcs & _).
    destruct (cjk_head cs Hne Hcs) as (c & Hin & Hc).
    exists c. split; [|exact Hc]. rewrite !in_app_iff. tauto.
  - apply call_words in H as (cs & ws & -> & Hne & Hcs & _).
    destruct (cjk_head cs Hne Hcs) as (c & Hin & Hc).
    exists c. split; [|exact Hc]. rewrite !in_app_iff. tauto.
Qed.

Lemma no_cjk_no_signature (code : jsstring) :
  forallb (fun c => negb (cjk c)) code = true ->
  hasChineseIdentifier code = false.
Proof.
  intros Hplain. destruct (hasChineseIdentifier code) eqn:Hsig; [|reflexivity].
  exfalso. rewrite forallb_forall in Hplain.
  apply signature_has_cjk in Hsig as (c & Hin & Hc).
  apply Hplain in Hin. rewrite Hc in Hin. discriminate.
Qed.

Lemma test_context (r : re) (pre s post : jsstring) :
  test r s = true -> test r (pre ++ s ++ post) = true.
Proof.
  rewrite !test_iff. intros (a & p & q & -> & H).
  exists (pre ++ a), p, (q ++ post). split; [|exact H].
  now rewrite <- !app_assoc.
Qed.

(** X3. A signature does not go away when text is put before or behind
    it: if [code] has a signature, so has any text that contains [code]. *)
Theorem X3_signature_survives_context (pre code post : jsstring) :
  hasChineseIdentifier code = true ->
  hasChineseIdentifier (pre ++ code ++ post) = true.
Proof.
  rewrite !hasChineseIdentifier_tests, !orb_true_iff.
  intros [H|[H|H]]; [left | right; left | right; right];
    now apply test_context.
Qed.

(** ** escapeRegExp *)

(** X4. Escaping loses nothing: read as a pattern, the escaped text
    denotes the text itself as a literal, so two texts with the same escaped
    form are equal; a text without special characters is its own escaped
    form. *)
Theorem X4_escapeRegExp_round_trip :
  (forall s, literal_of (escapeRegExp s) = Some s) /\
  (forall s t, escapeRegExp s = escapeRegExp t -> s = t) /\
  (forall s, forallb (fun c => negb (special c)) s = true ->
             escapeRegExp s = s).
Proof.
  assert (Hround : forall s, literal_of (escapeRegExp s) = Some s).
  { intros s. rewrite <- (app_nil_r (escapeRegExp s)), literal_of_app_escape.
    simpl. now rewrite app_nil_r. }
  split; [exact Hround|]. split.
  - intros s t H. apply (f_equal literal_of) in H.
    rewrite !Hround in H. now injection H.
  - induction s as [|c s IH]; simpl; [reflexivity|].
    rewrite andb_true_iff, negb_true_iff. intros [Hc Hs].
    rewrite Hc. simpl. now rewrite IH.
Qed.

(** ** An entry that translates a key into itself *)

Lemma replace_from_same (lit : jsstring) (n : nat) :
  lit <> [] ->
  forall s pos, length s <= n -> replace_from lit (fun _ => lit) pos 0 s = s.
Proof.
  intros Hlit. induction n as [|n IH]; intros s pos Hlen.
  - destruct s; [|simpl in Hlen; lia].
    destruct lit; [contradiction | reflexivity].
  - destruct s as [|c s]; [destruct lit; [contradiction | reflexivity]|].
    cbn [replace_from]. destruct (startsWith lit (c :: s)) eqn:Hstart.
    + apply startsWith_spec in Hstart as (t & Ht).
      destruct lit as [|a lit]; [contradiction|].
      injection Ht as -> ->.
      rewrite replace_from_skip by discriminate.
      rewrite IH; [reflexivity|].
      simpl in Hlen. rewrite length_app in Hlen. lia.
    + f_equal. apply IH. simpl in Hlen. lia.
Qed.

Lemma replaceAll_same (lit s : jsstring) :
  lit <> [] -> replaceAll lit lit s = s.
Proof.
  intros Hlit. unfold replaceAll.
  now apply (replace_from_same lit (length s)).
Qed.

(** X8. An entry whose translation is its key changes nothing and is not
    counted: the step returns the state it was given. *)
Theorem X8_identity_entry (st : run) (en : jsstring) :
  exact_step st (en, en) = st.
Proof.
  destruct st as [text n k out]. unfold exact_step. cbn [result].
  destruct (startsWith (js "_") en); [reflexivity|].
  assert (Hpass : forall q acc, quote_pass en en acc q = acc).
  { intros q [t b]. unfold quote_pass. cbv zeta.
    rewrite replaceAll_same by discriminate. now rewrite str_eqb_refl. }
  unfold quoteChars. cbn [fold_left]. now rewrite !Hpass.
Qed.

(** ** Counters and console of a pass *)

Section Counters.

Context {engine : RegExpEngine}.

Lemma matched_false_candidate (r : rule) (text : jsstring) :
  matched r text = false -> candidate r text = text.
Proof.
  destruct r as [en zh|p|p]; cbn [matched candidate].
  - destruct (startsWith (js "_") en); [reflexivity|].
    apply quote_fold_unreplaced.
  - intros H. apply negb_false_iff in H. now apply str_eqb_eq in H.
  - intros H. apply negb_false_iff in H. now apply str_eqb_eq in H.
Qed.

(** A rule adds one to exactly one counter, or to none. *)
Lemma step_counters (st : run) (r : rule) :
  (replacements (step st r) = replacements st /\
   rollbacks (step st r) = rollbacks st /\
   result (step st r) = result st) \/
  (replacements (step st r) = S (replacements st) /\
   rollbacks (step st r) = rollbacks st) \/
  (replacements (step st r) = replacements st /\
   rollbacks (step st r) = S (rollbacks st) /\
   result (step st r) = result st).
Proof.
  rewrite step_result, step_rollbacks, step_replacements. unfold step_text.
  destruct (guard_fires r (result st)); [right; right; auto|].
  destruct (matched r (result st)) eqn:Hm; [right; left; auto|].
  left. repeat split. now apply matched_false_candidate.
Qed.

Lemma fold_counters (rules : list rule) (st : run) :
  let st' := fold_left step rules st in
  replacements st <= replacements st' /\
  rollbacks st <= rollbacks st' /\
  replacements st' + rollbacks st'
  <= replacements st + rollbacks st + length rules /\
  (replacements st' = replacements st -> result st' = result st).
Proof.
  revert st. induction rules as [|r rules IH]; intros st; cbn [fold_left].
  - cbv zeta. simpl. repeat split; lia.
  - specialize (IH (step st r)). cbv zeta in IH |- *.
    destruct IH as (IH1 & IH2 & IH3 & IH4). cbn [length].
    destruct (step_counters st r)
      as [(H1 & H2 & H3) | [(H1 & H2) | (H1 & H2 & H3)]].
    + repeat split; try lia. intros H. rewrite IH4, H3; [reflexivity | lia].
    + repeat split; try lia.
    + repeat split; try lia. intros H. rewrite IH4, H3; [reflexivity | lia].
Qed.

(** X5. Every rule is counted at most once, as a replacement or as a
    rollback: the two counters of a pass add up to at most the number of
    rules of the map, however often a key or pattern occurs in the text. *)
Theorem X5_counters_bounded (m : L10nMap) (source : jsstring) :
  replacements (run_rules m source) + rollbacks (run_rules m source)
  <= length (rules_of m).
Proof.
  rewrite run_rules_fold.
  pose proof (fold_counters (rules_of m) (start source)) as H.
  cbv zeta in H. cbn [start replacements rollbacks] in H. lia.
Qed.

(** X6. A text that changed is counted: when [replaceStrings] returns a
    text other than its input, the file is added to [filesProcessed] and at
    least one string to [stringsReplaced]. *)
Theorem X6_changed_text_is_counted (this : Plugin) (source filename : jsstring) :
  (replaceStrings this source filename).1.1 <> source ->
  let this' := (replaceStrings this source filename).1.2 in
  filesProcessed (stats this') = S (filesProcessed (stats this)) /\
  stringsReplaced (stats this) < stringsReplaced (stats this').
Proof.
  unfold replaceStrings. destruct (l10nMap this) as [m|]; [|now intros H].
  pose proof (fold_counters (rules_of m) (start source)) as H.
  cbv zeta in H. rewrite <- run_rules_fold in H.
  cbn [start replacements rollbacks result] in H.
  destruct H as (_ & _ & _ & Hsame).
  destruct (replacements (run_rules m source)) as [|n] eqn:Hn.
  - destruct (0 <? rollbacks (run_rules m source)); cbn [fst snd];
      intros Hne; now rewrite Hsame in Hne.
  - cbn [Nat.ltb Nat.leb orb fst snd with_stats stats filesProcessed
         stringsReplaced]. intros _. split; [reflexivity | lia].
Qed.

End Counters.

Section Guard.

Context {engine : RegExpEngine}.

(** X2. A text without a CJK character has no signature, and a rule
    whose substitution yields such a text is never rolled back. *)
Theorem X2_no_cjk_no_signature :
  (forall code,
     forallb (fun c => negb (cjk c)) code = true ->
     hasChineseIdentifier code = false) /\
  (forall r st,
     forallb (fun c => negb (cjk c)) (candidate r (result st)) = true ->
     result (step st r) = candidate r (result st) /\
     rollbacks (step st r) = rollbacks st).
Proof.
  split; [exact no_cjk_no_signature|].
  intros r st H. apply no_cjk_no_signature in H.
  assert (Hfires : guard_fires r (result st) = false).
  { unfold guard_fires. now rewrite H. }
  rewrite step_result, step_rollbacks. unfold step_text. now rewrite Hfires.
Qed.

Lemma step_console (st : run) (r : rule) :
  exists events,
    console (step st r) = console st ++ events /\
    length (List.filter is_rollback_warning events)
    = (if guard_fires r (result st) then 1 else 0) /\
    length (List.filter is_regexp_warning events)
    = (if malformed r then 1 else 0) /\
    forallb (fun e => is_rollback_warning e || is_regexp_warning e) events
    = true.
Proof.
  destruct r as [en zh|p|p]; cbn [step malformed].
  - unfold exact_step. destruct (startsWith (js "_") en) eqn:Hmeta.
    + exists []. rewrite app_nil_r, guard_fires_metadata by assumption.
      now repeat split.
    + pose proof (exact_guard en zh (result st) Hmeta) as Hguard.
      cbv zeta in Hguard.
      destruct (fold_left (quote_pass en zh) quoteChars (result st, false))
        as [result' replaced].
      cbn [fst snd] in Hguard. rewrite Hguard.
      destruct (guard_fires (exact_rule en zh) (result st)).
      * exists [warn_rollback_exact en zh]. now repeat split.
      * exists []. rewrite app_nil_r. destruct replaced; now repeat split.
  - unfold pattern_step, guard_fires, candidate.
    destruct (RegExp_new (pattern_match p)) as [regex|message].
    + destruct (_ && _).
      * exists [warn_rollback_pattern (pattern_match p)]. now repeat split.
      * exists []. rewrite app_nil_r. destruct (negb _); now repeat split.
    + exists [warn_regexp_error (pattern_match p) message].
      rewrite andb_negb_r. now repeat split.
  - unfold pattern_step, guard_fires, candidate.
    destruct (RegExp_new (pattern_match p)) as [regex|message].
    + destruct (_ && _).
      * exists [warn_rollback_statusBar (pattern_match p)]. now repeat split.
      * exists []. rewrite app_nil_r. destruct (negb _); now repeat split.
    + exists [warn_regexp_error (pattern_match p) message].
      rewrite andb_negb_r. now repeat split.
Qed.

Lemma fold_console (rules : list rule) (st : run) :
  let st' := fold_left step rules st in
  exists events,
    console st' = console st ++ events /\
    length (List.filter is_rollback_warning events) + rollbacks st
    = rollbacks st' /\
    length (List.filter is_regexp_warning events)
    = length (List.filter malformed rules) /\
    forallb (fun e => is_rollback_warning e || is_regexp_warning e) events
    = true.
Proof.
  revert st. induction rules as [|r rules IH]; intros st; cbn [fold_left].
  - exists []. rewrite app_nil_r. now repeat split.
  - destruct (IH (step st r)) as (later & Hc & Hr & He & Hall).
    destruct (step_console st r) as (first & Hc1 & Hr1 & He1 & Hall1).
    exists (first ++ later). cbv zeta.
    rewrite Hc, Hc1, <- app_assoc, !List.filter_app, !length_app,
      forallb_app, Hall, Hall1, Hr1, He1, He.
    rewrite step_rollbacks in Hr. cbn [List.filter].
    repeat split.
    + destruct (guard_fires r (result st)); lia.
    + destruct (malformed r); cbn [length]; lia.
Qed.

(** X7. Nothing is rolled back or skipped in silence: the console of a
    pass holds one rollback warning for each rollback it counted and one
    regular-expression warning for each pattern the engine rejected, and
    nothing else. *)
Theorem X7_console_accounts (m : L10nMap) (source : jsstring) :
  let st := run_rules m source in
  length (List.filter is_rollback_warning (console st)) = rollbacks st /\
  length (List.filter is_regexp_warning (console st))
  = length (List.filter malformed (rules_of m)) /\
  forallb (fun e => is_rollback_warning e || is_regexp_warning e) (console st)
  = true.
Proof.
  cbv zeta. rewrite run_rules_fold.
  destruct (fold_console (rules_of m) (start source))
    as (events & Hc & Hr & He & Hall).
  cbn [start console rollbacks app] in Hc, Hr.
  rewrite Hc. repeat split; [lia | exact He | exact Hall].
Qed.

End Guard.

(** ** The asset hook, over a whole build *)

(** X9. An asset is eligible exactly when its file name is some text
    followed by [.js]. *)
Theorem X9_eligible_suffix (filename : jsstring) :
  eligible filename = true <-> exists stem, filename = stem ++ js ".js".
Proof.
  unfold eligible, endsWith. rewrite startsWith_spec. split.
  - intros (t & Ht). exists (rev t).
    rewrite <- (rev_involutive filename), Ht, rev_app_distr.
    now rewrite rev_involutive.
  - intros (stem & ->). exists (rev stem). apply rev_app_distr.
Qed.

Section Build.

Context {engine : RegExpEngine}.
Variable Buffer_toString : list N -> jsstring.
Variable JSON_parse_map : jsstring -> option L10nMap.

Lemma replaceStrings_map (this : Plugin) (source filename : jsstring) :
  l10nMap (replaceStrings this source filename).1.2 = l10nMap this.
Proof.
  unfold replaceStrings. destruct (l10nMap this) eqn:Hm; [|exact Hm].
  now destruct (_ || _).
Qed.

Lemma replaceStrings_stats (this : Plugin) (m : L10nMap)
    (source filename : jsstring) :
  l10nMap this = Some m ->
  let st := run_rules m source in
  let this' := (replaceStrings this source filename).1.2 in
  filesProcessed (stats this')
  = filesProcessed (stats this)
    + (if (0 <? replacements st) || (0 <? rollbacks st) then 1 else 0) /\
  stringsReplaced (stats this')
  = stringsReplaced (stats this) + replacements st.
Proof.
  intros Hm. cbv zeta. unfold replaceStrings. rewrite Hm.
  destruct (replacements (run_rules m source)) as [|n].
  - destruct (0 <? rollbacks (run_rules m source)); cbn; lia.
  - cbn. lia.
Qed.

Lemma process_asset_plugin (this : Plugin) (filename : jsstring)
    (asset : source_value) :
  (process_asset Buffer_toString this (filename, asset)).1.2
  = if eligible filename
    then (replaceStrings this (asset_text Buffer_toString asset) filename).1.2
    else this.
Proof.
  unfold process_asset, asset_text. destruct (eligible filename);
    [|reflexivity].
  cbn [negb].
  destruct (replaceStrings this _ filename) as [[text this'] out].
  now destruct (negb _).
Qed.

Lemma process_asset_entry (this : Plugin) (filename : jsstring)
    (asset : source_value) :
  let entry' := (process_asset Buffer_toString this (filename, asset)).1.1 in
  entry' = (filename, asset) \/
  eligible filename = true /\
  exists text, entry' = (filename, source_string text)
               /\ text <> asset_text Buffer_toString asset.
Proof.
  cbv zeta. unfold process_asset, asset_text.
  destruct (eligible filename); [|now left]. cbn [negb].
  destruct (replaceStrings this _ filename) as [[text this'] out].
  destruct (str_eqb text _) eqn:Heq; cbn [negb fst]; [now left|].
  right. split; [reflexivity|]. exists text. split; [reflexivity|].
  intros ->. now rewrite str_eqb_refl in Heq.
Qed.

Lemma processAssets_map (assets : list (jsstring * source_value))
    (this : Plugin) :
  l10nMap (processAssets Buffer_toString this assets).1.2 = l10nMap this.
Proof.
  revert this. induction assets as [|[filename asset] rest IH]; intros this;
    [reflexivity|].
  cbn [processAssets].
  pose proof (process_asset_plugin this filename asset) as Hp.
  destruct (process_asset Buffer_toString this (filename, asset))
    as [[entry' this'] out].
  specialize (IH this').
  destruct (processAssets Buffer_toString this' rest) as [[rest' this''] out'].
  cbn [fst snd] in *. rewrite IH, Hp.
  destruct (eligible filename); [apply replaceStrings_map | reflexivity].
Qed.

(** X10. The hook keeps the assets in place: the file names come out in
    the order they went in, and each asset is either the one that went in or,
    for an eligible file, a string source whose text differs from the text
    that was read; a buffer whose text no rule changes stays a buffer. *)
Theorem X10_assets_kept_in_place (this : Plugin)
    (assets : list (jsstring * source_value)) :
  let out := (processAssets Buffer_toString this assets).1.1 in
  map fst out = map fst assets /\
  forall i filename asset,
    assets !! i = Some (filename, asset) ->
    out !! i = Some (filename, asset) \/
    eligible filename = true /\
    exists text, out !! i = Some (filename, source_string text)
                 /\ text <> asset_text Buffer_toString asset.
Proof.
  cbv zeta. revert this.
  induction assets as [|[filename asset] rest IH]; intros this.
  - split; [reflexivity|]. intros i f a Hi. discriminate Hi.
  - cbn [processAssets].
    pose proof (process_asset_entry this filename asset) as He.
    destruct (process_asset Buffer_toString this (filename, asset))
      as [[entry' this'] out].
    destruct (IH this') as [IHnames IHentries].
    destruct (processAssets Buffer_toString this' rest)
      as [[rest' this''] out'].
    cbv zeta in He. cbn [fst snd] in *. split.
    + cbn [map]. rewrite IHnames. f_equal.
      destruct He as [-> | (_ & text & -> & _)]; reflexivity.
    + intros [|i] f a Hi; cbn in Hi |- *.
      * injection Hi as <- <-.
        destruct He as [-> | (Hel & text & -> & Hne)]; [now left|].
        right. split; [exact Hel|]. now exists text.
      * now apply IHentries.
Qed.

Lemma processAssets_stats (this : Plugin) (m : L10nMap)
    (assets : list (jsstring * source_value)) :
  l10nMap this = Some m ->
  let this' := (processAssets Buffer_toString this assets).1.2 in
  filesProcessed (stats this')
  = filesProcessed (stats this)
    + length (List.filter (active Buffer_toString m) assets) /\
  stringsReplaced (stats this')
  = stringsReplaced (stats this)
    + list_sum (map (accepted Buffer_toString m) assets).
Proof.
  cbv zeta. revert this.
  induction assets as [|[filename asset] rest IH]; intros this Hm.
  - cbn. lia.
  - cbn [processAssets].
    pose proof (process_asset_plugin this filename asset) as Hp.
    destruct (process_asset Buffer_toString this (filename, asset))
      as [[entry' this'] out].
    cbn [fst snd] in Hp.
    assert (Hm' : l10nMap this' = Some m).
    { rewrite Hp. destruct (eligible filename); [|exact Hm].
      now rewrite replaceStrings_map. }
    specialize (IH this' Hm').
    destruct (processAssets Buffer_toString this' rest)
      as [[rest' this''] out'].
    cbn [fst snd] in IH |- *. destruct IH as [IHf IHs].
    cbn [List.filter map list_sum]. unfold active at 1, accepted at 1.
    cbn [fst snd]. rewrite IHf, IHs, Hp.
    destruct (eligible filename); cbn [andb].
    + destruct (replaceStrings_stats this m
                  (asset_text Buffer_toString asset) filename Hm)
        as [Hf Hs].
      cbv zeta in Hf, Hs. rewrite Hf, Hs. unfold list_sum.
      destruct (_ || _); cbn [length fold_right]; lia.
    + unfold list_sum. cbn [fold_right]. lia.
Qed.

(** X11. The statistics add up over the assets of a build: the hook
    raises [filesProcessed] by the number of eligible assets whose pass
    counted a replacement or a rollback, which is at most the number of
    assets, and [stringsReplaced] by the replacements those passes counted;
    it leaves the loaded map alone. *)
Theorem X11_statistics_add_up (this : Plugin) (m : L10nMap)
    (assets : list (jsstring * source_value)) :
  l10nMap this = Some m ->
  let this' := (processAssets Buffer_toString this assets).1.2 in
  filesProcessed (stats this')
  = filesProcessed (stats this)
    + length (List.filter (active Buffer_toString m) assets) /\
  stringsReplaced (stats this')
  = stringsReplaced (stats this)
    + list_sum (map (accepted Buffer_toString m) assets) /\
  filesProcessed (stats this') <= filesProcessed (stats this) + length assets /\
  l10nMap this' = Some m.
Proof.
  intros Hm. cbv zeta.
  destruct (processAssets_stats this m assets Hm) as [Hf Hs].
  cbv zeta in Hf, Hs. split; [exact Hf|]. split; [exact Hs|]. split.
  - rewrite Hf. apply Nat.add_le_mono_l, List.filter_length_le.
  - now rewrite processAssets_map.
Qed.

(** X12. A plugin that is disabled, finds no map file or cannot parse
    it taps no hook: the compilation returns every asset as it is and the
    statistics stay as they were. *)
Theorem X12_no_map_no_change (this : Plugin) (fs : gmap string jsstring)
    (assets : list (jsstring * source_value)) :
  enabled this = false \/
  fs !! l10nPath this = None \/
  (exists content,
     fs !! l10nPath this = Some content /\ JSON_parse_map content = None) ->
  let build := compilation Buffer_toString JSON_parse_map this fs assets in
  build.1.1 = assets /\ stats build.1.2 = stats this
  /\ l10nMap build.1.2 = (if enabled this then None else l10nMap this).
Proof.
  intros H. cbv zeta. unfold compilation, apply, loadLocalizationMap.
  destruct (enabled this); cbn [negb].
  - destruct H as [H | [H | (content & H & Hparse)]]; [discriminate| |].
    + rewrite H. now cbn.
    + rewrite H, Hparse. now cbn.
  - now cbn.
Qed.

(** X13. From construction to the summary: with a map that loads, the
    [done] hook of a freshly constructed plugin prints the number of active
    assets and the replacements counted on them, and prints no summary when no
    asset was active; constructed with [enabled: false], the plugin returns
    every asset as it is, the one line on the console is the notice that it is
    disabled, and there is no summary. *)
Theorem X13_build_summary (default_l10nPath : string) (options : Options)
    (fs : gmap string jsstring) (assets : list (jsstring * source_value)) :
  let this := constructor default_l10nPath options in
  let build := compilation Buffer_toString JSON_parse_map this fs assets in
  (forall content m,
     options_enabled options <> Some false ->
     fs !! l10nPath this = Some content ->
     JSON_parse_map content = Some m ->
     let files := length (List.filter (active Buffer_toString m) assets) in
     done_hook build.1.2
     = if 0 <? files
       then Some (files, list_sum (map (accepted Buffer_toString m) assets))
       else None) /\
  (options_enabled options = Some false ->
   build = (assets, this, [log_disabled]) /\ done_hook this = None).
Proof.
  cbv zeta. split.
  - intros content m Hen Hfile Hparse.
    unfold compilation, apply, loadLocalizationMap.
    assert (Henabled : enabled (constructor default_l10nPath options) = true).
    { unfold constructor. cbn [enabled].
      destruct (options_enabled options) as [[|]|]; congruence. }
    rewrite Henabled, Hfile, Hparse. cbn [negb].
    match goal with
    | |- context [processAssets _ ?p assets] =>
        pose proof (processAssets_stats p m assets eq_refl) as Hsum;
        destruct (processAssets Buffer_toString p assets)
          as [[assets' this''] out']
    end.
    cbv zeta in Hsum. cbn [fst snd stats constructor filesProcessed
                           stringsReplaced] in Hsum |- *.
    destruct Hsum as [Hf Hs]. unfold done_hook. now rewrite Hf, Hs.
  - intros Hoff. unfold compilation, apply, constructor. cbn [enabled].
    rewrite Hoff. now cbn.
Qed.

End Build.

(** ** The manifest translator, pass by pass *)

Lemma translate_passes (l10nMap : LocalizationMap) (packageJson : PackageJson) :
  translate l10nMap packageJson
  = ({| commands := (commands_pass l10nMap packageJson).1;
        views := (views_pass l10nMap packageJson).1;
        configuration := (configuration_pass l10nMap packageJson).1 |},
     (commands_pass l10nMap packageJson).2
     + (views_pass l10nMap packageJson).2
     + (configuration_pass l10nMap packageJson).2).
Proof.
  unfold translate, commands_pass, views_pass, configuration_pass.
  assert (Hviews :
            forall table,
              translate_all
                (fun container : jsstring * list View =>
                   let '(vs, n) :=
                     translate_all (translate_view table) (snd container) in
                   ((fst container, vs), n))
                (views packageJson)
              = translate_all (translate_container table) (views packageJson))
    by reflexivity.
  destruct (l10n_commands (contributions l10nMap)) as [ct|];
    destruct (l10n_views (contributions l10nMap)) as [vt|];
    rewrite ?Hviews;
    repeat match goal with
    | |- context [translate_all ?f ?l] =>
        destruct (translate_all f l) as [? ?]
    end;
    destruct (l10n_configuration (contributions l10nMap)) as [pt|];
    try reflexivity;
    destruct (configuration packageJson ≫= properties) as [props|];
    try reflexivity;
    now destruct (translate_all (translate_property pt) props).
Qed.

(** Facts about the loop, from facts about its body. *)
Lemma translate_all_map {A B : Type} (f : A -> A * nat) (g : A -> B)
    (l : list A) :
  (forall x, g (f x).1 = g x) -> map g (translate_all f l).1 = map g l.
Proof.
  intros H. induction l as [|x l IH]; [reflexivity|].
  cbn [translate_all]. specialize (H x).
  destruct (f x) as [x' n]. destruct (translate_all f l) as [l' k].
  cbn in *. now rewrite H, IH.
Qed.

Lemma translate_all_idempotent {A : Type} (f : A -> A * nat) (l : list A) :
  (forall x, f (f x).1 = f x) ->
  translate_all f (translate_all f l).1 = translate_all f l.
Proof.
  intros H. induction l as [|x l IH]; [reflexivity|].
  cbn [translate_all]. specialize (H x).
  destruct (f x) as [x' n]. destruct (translate_all f l) as [l' k].
  cbn in *. now rewrite H, IH.
Qed.

Lemma translate_all_zero {A : Type} (f : A -> A * nat) (l : list A) :
  (forall x, (f x).2 = 0 -> (f x).1 = x) ->
  (translate_all f l).2 = 0 -> (translate_all f l).1 = l.
Proof.
  intros H. induction l as [|x l IH]; [reflexivity|].
  cbn [translate_all]. specialize (H x).
  destruct (f x) as [x' n]. destruct (translate_all f l) as [l' k].
  cbn in *. intros Hz. rewrite H, IH by lia. reflexivity.
Qed.

Lemma translate_all_bound {A : Type} (f : A -> A * nat) (size : A -> nat)
    (l : list A) :
  (forall x, (f x).2 <= 2 * size x) ->
  (translate_all f l).2 <= 2 * list_sum (map size l).
Proof.
  intros H. induction l as [|x l IH]; [cbn; lia|].
  cbn [translate_all]. specialize (H x).
  destruct (f x) as [x' n]. destruct (translate_all f l) as [l' k].
  unfold list_sum in *. cbn in *. lia.
Qed.

Lemma translate_all_length {A : Type} (f : A -> A * nat) (l : list A) :
  length (translate_all f l).1 = length l.
Proof.
  rewrite <- (length_map (fun _ => tt)), <- (length_map (fun _ => tt) l).
  f_equal. now apply translate_all_map.
Qed.

(** The bodies of the three loops. *)

Lemma translate_command_facts (table : gmap jsstring CommandL10n)
    (cmd : Command) :
  let f := translate_command table in
  command (f cmd).1 = command cmd /\
  f (f cmd).1 = f cmd /\
  ((f cmd).2 = 0 -> (f cmd).1 = cmd) /\
  (f cmd).2 <= 2.
Proof.
  cbv zeta. destruct cmd as [k t c]. unfold translate_command.
  cbn [command].
  destruct (table !! k) as [[[[|a s]|] tc]|] eqn:Hk;
    cbn [l10n_title l10n_category command title category];
    try destruct (truthy tc) eqn:Htc;
    cbn [fst snd command title category]; try rewrite Hk;
    cbn [l10n_title l10n_category command title category];
    try rewrite Htc;
    repeat split; auto; discriminate.
Qed.

Lemma translate_view_facts (table : gmap jsstring ViewL10n) (view : View) :
  let f := translate_view table in
  view_id (f view).1 = view_id view /\
  f (f view).1 = f view /\
  ((f view).2 = 0 -> (f view).1 = view) /\
  (f view).2 <= 2.
Proof.
  cbv zeta. destruct view as [k t c]. unfold translate_view.
  cbn [view_id].
  destruct (view_translation table k) as [[[[|a s]|] tc]|] eqn:Hk;
    cbn [l10n_name l10n_contextualTitle view_id name contextualTitle];
    try destruct (truthy tc) eqn:Htc;
    cbn [fst snd view_id name contextualTitle]; try rewrite Hk;
    cbn [l10n_name l10n_contextualTitle view_id name contextualTitle];
    try rewrite Htc;
    repeat split; auto; discriminate.
Qed.

Lemma translate_container_facts (table : gmap jsstring ViewL10n)
    (container : jsstring * list View) :
  let f := translate_container table in
  (fst (f container).1, map view_id (snd (f container).1))
  = (fst container, map view_id (snd container)) /\
  f (f container).1 = f container /\
  ((f container).2 = 0 -> (f container).1 = container) /\
  (f container).2 <= 2 * length (snd container).
Proof.
  cbv zeta. destruct container as [key vs]. unfold translate_container.
  cbn [fst snd].
  pose proof (translate_all_map (translate_view table) view_id vs
                (fun v => proj1 (translate_view_facts table v))) as Hids.
  pose proof (translate_all_idempotent (translate_view table) vs
                (fun v => proj1 (proj2 (translate_view_facts table v))))
    as Hidem.
  pose proof (translate_all_zero (translate_view table) vs
                (fun v => proj1 (proj2 (proj2 (translate_view_facts table v)))))
    as Hzero.
  pose proof (translate_all_bound (translate_view table) (fun _ => 1) vs)
    as Hbound.
  destruct (translate_all (translate_view table) vs) as [vs' n].
  cbn [fst snd] in *. repeat split.
  - now rewrite Hids.
  - now rewrite Hidem.
  - intros Hn. now rewrite Hzero.
  - assert (Hsum : list_sum (map (fun _ : View => 1) vs) = length vs).
    { clear. induction vs as [|v vs IH]; [reflexivity|].
      cbn [map length]. unfold list_sum in *. cbn [fold_right]. lia. }
    rewrite <- Hsum. apply Hbound. intros v.
    pose proof (translate_view_facts table v) as (_ & _ & _ & H). cbv zeta in H.
    lia.
Qed.

Lemma translate_property_facts (table : gmap jsstring ConfigurationL10n)
    (entry : jsstring * Property) :
  let f := translate_property table in
  fst (f entry).1 = fst entry /\
  f (f entry).1 = f entry /\
  ((f entry).2 = 0 -> (f entry).1 = entry) /\
  (f entry).2 <= 2.
Proof.
  cbv zeta. destruct entry as [key [d md]]. unfold translate_property.
  destruct (table !! key) as [[td tmd]|] eqn:Hk;
    [|cbn -[lookup]; rewrite ?Hk; repeat split; auto].
  destruct (truthy td) eqn:Htd, (truthy d) eqn:Hd, (truthy tmd) eqn:Htmd,
    (truthy md) eqn:Hmd;
    do 4 (cbn -[truthy lookup]; rewrite ?Hk, ?Htd, ?Hd, ?Htmd, ?Hmd);
    cbn -[truthy lookup];
    repeat split; rewrite ?Htd, ?Hd, ?Htmd, ?Hmd; auto; discriminate.
Qed.

Lemma list_sum_ones {A : Type} (l : list A) :
  list_sum (map (fun _ => 1) l) = length l.
Proof.
  induction l as [|x l IH]; [reflexivity|].
  cbn [map length]. unfold list_sum in *. cbn [fold_right]. lia.
Qed.

Lemma configuration_eta (packageJson : PackageJson)
    (props : list (jsstring * Property)) :
  configuration packageJson ≫= properties = Some props ->
  configuration packageJson = Some {| properties := Some props |}.
Proof.
  destruct (configuration packageJson) as [[ps]|]; [|discriminate].
  cbn. now intros ->.
Qed.

(** The passes on a manifest that went through them already. *)
Lemma passes_again (l10nMap : LocalizationMap) (packageJson : PackageJson) :
  let translated := (translate l10nMap packageJson).1 in
  commands_pass l10nMap translated = commands_pass l10nMap packageJson /\
  views_pass l10nMap translated = views_pass l10nMap packageJson /\
  configuration_pass l10nMap translated
  = configuration_pass l10nMap packageJson.
Proof.
  cbv zeta. rewrite translate_passes. cbn [fst].
  unfold commands_pass, views_pass, configuration_pass.
  cbn [commands views configuration]. repeat split.
  - destruct (l10n_commands (contributions l10nMap)) as [table|];
      [|reflexivity].
    apply translate_all_idempotent. intros cmd.
    apply (translate_command_facts table cmd).
  - destruct (l10n_views (contributions l10nMap)) as [table|];
      [|reflexivity].
    apply translate_all_idempotent. intros container.
    apply (translate_container_facts table container).
  - destruct (l10n_configuration (contributions l10nMap)) as [table|];
      [|reflexivity].
    destruct (configuration packageJson ≫= properties) as [props|] eqn:Hprops.
    + pose proof (translate_all_idempotent (translate_property table) props
                    (fun e => proj1 (proj2 (translate_property_facts table e))))
        as Hidem.
      destruct (translate_all (translate_property table) props)
        as [props' n].
      cbn [fst mbind option_bind properties] in *. now rewrite Hidem.
    + cbn [fst]. now rewrite Hprops.
Qed.

(** X15. Translating a translated manifest changes nothing: the second
    run returns the manifest of the first run, and the same count. *)
Theorem X15_translate_idempotent (l10nMap : LocalizationMap)
    (packageJson : PackageJson) :
  translate l10nMap (translate l10nMap packageJson).1
  = translate l10nMap packageJson.
Proof.
  destruct (passes_again l10nMap packageJson) as (Hc & Hv & Hp).
  cbv zeta in Hc, Hv, Hp.
  rewrite (translate_passes l10nMap (translate l10nMap packageJson).1).
  rewrite Hc, Hv, Hp. symmetry. apply translate_passes.
Qed.

(** X14. The translator renames nothing and moves nothing: command ids,
    view ids within their containers and configuration keys come out as they
    went in, in the same order. *)
Theorem X14_identifiers_kept (l10nMap : LocalizationMap)
    (packageJson : PackageJson) :
  identifiers (translate l10nMap packageJson).1 = identifiers packageJson.
Proof.
  unfold identifiers. rewrite properties_of_translate.
  rewrite translate_passes. cbn [fst commands views].
  unfold commands_pass, views_pass. f_equal; [f_equal|].
  - destruct (l10n_commands (contributions l10nMap)) as [table|];
      [|reflexivity].
    apply translate_all_map. intros cmd.
    apply (translate_command_facts table cmd).
  - destruct (l10n_views (contributions l10nMap)) as [table|];
      [|reflexivity].
    apply (translate_all_map (translate_container table)
             (fun container => (fst container, map view_id (snd container)))).
    intros container. apply (translate_container_facts table container).
  - destruct (l10n_configuration (contributions l10nMap)) as [table|];
      [|reflexivity].
    apply translate_all_map. intros entry.
    apply (translate_property_facts table entry).
Qed.

(** X16. The change count is honest about zero and bounded: a run
    that counts no change returns the manifest it was given, and no run
    counts more than two changes per command, view and configuration
    property. *)
Theorem X16_change_count (l10nMap : LocalizationMap)
    (packageJson : PackageJson) :
  ((translate l10nMap packageJson).2 = 0 ->
   (translate l10nMap packageJson).1 = packageJson) /\
  (translate l10nMap packageJson).2 <= 2 * entries packageJson.
Proof.
  rewrite translate_passes. cbn [fst snd]. split.
  - intros Hzero.
    assert (Hc : (commands_pass l10nMap packageJson).2 = 0) by lia.
    assert (Hv : (views_pass l10nMap packageJson).2 = 0) by lia.
    assert (Hp : (configuration_pass l10nMap packageJson).2 = 0) by lia.
    clear Hzero. destruct packageJson as [cmds vs conf].
    unfold commands_pass, views_pass, configuration_pass in *.
    cbn [commands views configuration] in *. f_equal.
    + destruct (l10n_commands (contributions l10nMap)) as [table|];
        [|reflexivity].
      apply translate_all_zero; [|exact Hc]. intros cmd.
      apply (translate_command_facts table cmd).
    + destruct (l10n_views (contributions l10nMap)) as [table|];
        [|reflexivity].
      apply translate_all_zero; [|exact Hv]. intros container.
      apply (translate_container_facts table container).
    + destruct (l10n_configuration (contributions l10nMap)) as [table|];
        [|reflexivity].
      destruct (conf ≫= properties) as [props|] eqn:Hprops; [|reflexivity].
      pose proof (translate_all_zero (translate_property table) props
                    (fun e => proj1 (proj2 (proj2
                                (translate_property_facts table e)))))
        as Hsame.
      destruct (translate_all (translate_property table) props)
        as [props' n].
      cbn [fst snd] in *. rewrite (Hsame Hp).
      symmetry. apply (configuration_eta
                         {| commands := cmds; views := vs;
                            configuration := conf |} props Hprops).
  - unfold entries, properties_of, commands_pass, views_pass,
      configuration_pass.
    assert (Hc : (match l10n_commands (contributions l10nMap) with
                  | Some table =>
                      translate_all (translate_command table)
                        (commands packageJson)
                  | None => (commands packageJson, 0)
                  end).2 <= 2 * length (commands packageJson)).
    { destruct (l10n_commands (contributions l10nMap)) as [table|];
        [|cbn; lia].
      rewrite <- list_sum_ones. apply translate_all_bound. intros cmd.
      pose proof (translate_command_facts table cmd) as (_ & _ & _ & H).
      cbv zeta in H. lia. }
    assert (Hv : (match l10n_views (contributions l10nMap) with
                  | Some table =>
                      translate_all (translate_container table)
                        (views packageJson)
                  | None => (views packageJson, 0)
                  end).2
                 <= 2 * list_sum (map (fun container => length (snd container))
                                    (views packageJson))).
    { destruct (l10n_views (contributions l10nMap)) as [table|];
        [|cbn; lia].
      apply translate_all_bound. intros container.
      apply (translate_container_facts table container). }
    assert (Hp : (match l10n_configuration (contributions l10nMap),
                        configuration packageJson ≫= properties with
                  | Some table, Some props =>
                      let '(props', n) :=
                        translate_all (translate_property table) props in
                      (Some {| properties := Some props' |}, n)
                  | _, _ => (configuration packageJson, 0)
                  end).2
                 <= 2 * length (entries_of
                                  (configuration packageJson ≫= properties))).
    { destruct (l10n_configuration (contributions l10nMap)) as [table|];
        [|cbn; lia].
      destruct (configuration packageJson ≫= properties) as [props|];
        [|cbn; lia].
      pose proof (translate_all_bound (translate_property table)
                    (fun _ => 1) props) as Hb.
      rewrite list_sum_ones in Hb.
      destruct (translate_all (translate_property table) props)
        as [props' n].
      cbn [fst snd entries_of] in *. apply Hb. intros entry.
      pose proof (translate_property_facts table entry) as (_ & _ & _ & H).
      cbv zeta in H. lia. }
    lia.
Qed.

(** What one command and one view become. *)
Lemma translate_command_fields (table : gmap jsstring CommandL10n)
    (cmd : Command) (translation : CommandL10n) :
  table !! command cmd = Some translation ->
  let cmd' := (translate_command table cmd).1 in
  (truthy (l10n_title translation) = true ->
   Some (title cmd') = l10n_title translation) /\
  (truthy (l10n_title translation) = false -> title cmd' = title cmd) /\
  (truthy (l10n_category translation) = true ->
   category cmd' = l10n_category translation) /\
  (truthy (l10n_category translation) = false ->
   category cmd' = category cmd).
Proof.
  intros Hk. cbv zeta. unfold translate_command. rewrite Hk.
  destruct translation as [[[|a s]|] tc];
    cbn [l10n_title l10n_category truthy];
    destruct (truthy tc); cbn; repeat split; auto; discriminate.
Qed.

Lemma translate_view_fields (table : gmap jsstring ViewL10n)
    (view : View) (translation : ViewL10n) :
  view_translation table (view_id view) = Some translation ->
  let view' := (translate_view table view).1 in
  (truthy (l10n_name translation) = true ->
   Some (name view') = l10n_name translation) /\
  (truthy (l10n_name translation) = false -> name view' = name view) /\
  (truthy (l10n_contextualTitle translation) = true ->
   contextualTitle view' = l10n_contextualTitle translation) /\
  (truthy (l10n_contextualTitle translation) = false ->
   contextualTitle view' = contextualTitle view).
Proof.
  intros Hk. cbv zeta. unfold translate_view. rewrite Hk.
  destruct translation as [[[|a s]|] tc];
    cbn [l10n_name l10n_contextualTitle truthy];
    destruct (truthy tc); cbn; repeat split; auto; discriminate.
Qed.

(** X17. For every command of the manifest: with a translation for its
    id, the title is the translated title when that is non-empty and the
    category is the translated category when that is non-empty, whether the
    command had a category or not; without a translation for its id the
    command is untouched. *)
Theorem X17_command_fields (l10nMap : LocalizationMap)
    (packageJson : PackageJson) (i : nat) (cmd : Command) :
  commands packageJson !! i = Some cmd ->
  exists cmd',
    commands (translate l10nMap packageJson).1 !! i = Some cmd' /\
    (forall table translation,
       l10n_commands (contributions l10nMap) = Some table ->
       table !! command cmd = Some translation ->
       (truthy (l10n_title translation) = true ->
        Some (title cmd') = l10n_title translation) /\
       (truthy (l10n_title translation) = false -> title cmd' = title cmd) /\
       (truthy (l10n_category translation) = true ->
        category cmd' = l10n_category translation) /\
       (truthy (l10n_category translation) = false ->
        category cmd' = category cmd)) /\
    ((forall table,
        l10n_commands (contributions l10nMap) = Some table ->
        table !! command cmd = None) ->
     cmd' = cmd).
Proof.
  intros Hi. rewrite translate_passes. cbn [fst commands].
  unfold commands_pass.
  destruct (l10n_commands (contributions l10nMap)) as [table|].
  - exists (translate_command table cmd).1. split; [|split].
    + now rewrite translate_all_lookup, Hi.
    + intros table' translation [= <-] Hk.
      now apply translate_command_fields.
    + intros Hnone. specialize (Hnone table eq_refl).
      unfold translate_command. now rewrite Hnone.
  - exists cmd. split; [exact Hi|]. split; [discriminate | reflexivity].
Qed.

Lemma Object_prototype_name (key n : jsstring) :
  Object_prototype key = Some (Some n) -> n <> [].
Proof.
  unfold Object_prototype.
  destruct (str_eqb key (js "constructor")); [now intros [= <-]|].
  destruct (existsb _ _) eqn:Hin.
  - intros [= <-]. apply existsb_exists in Hin as (k & Hk & Heq).
    apply str_eqb_eq in Heq as ->.
    repeat (destruct Hk as [<-|Hk]; [discriminate|]). destruct Hk.
  - destruct (str_eqb key (js "__proto__")); discriminate.
Qed.

(** X18. For every view of every container: with an own entry for its
    id in the table, the name becomes the translated name when that is
    non-empty and the contextual title the translated one when that is
    non-empty, whether the view had one or not.  Without an own entry, an id
    that names a function every object inherits gets the name of that
    function as its name; any other id leaves the view untouched. *)
Theorem X18_view_fields (l10nMap : LocalizationMap)
    (packageJson : PackageJson) (j i : nat) (container : jsstring)
    (vs : list View) (view : View) :
  views packageJson !! j = Some (container, vs) ->
  vs !! i = Some view ->
  exists vs' view',
    views (translate l10nMap packageJson).1 !! j = Some (container, vs') /\
    vs' !! i = Some view' /\
    (forall table translation,
       l10n_views (contributions l10nMap) = Some table ->
       table !! view_id view = Some translation ->
       (truthy (l10n_name translation) = true ->
        Some (name view') = l10n_name translation) /\
       (truthy (l10n_name translation) = false -> name view' = name view) /\
       (truthy (l10n_contextualTitle translation) = true ->
        contextualTitle view' = l10n_contextualTitle translation) /\
       (truthy (l10n_contextualTitle translation) = false ->
        contextualTitle view' = contextualTitle view)) /\
    (forall table inherited,
       l10n_views (contributions l10nMap) = Some table ->
       table !! view_id view = None ->
       Object_prototype (view_id view) = Some (Some inherited) ->
       name view' = inherited /\
       contextualTitle view' = contextualTitle view) /\
    ((forall table,
        l10n_views (contributions l10nMap) = Some table ->
        table !! view_id view = None /\
        (Object_prototype (view_id view) = None \/
         Object_prototype (view_id view) = Some None)) ->
     view' = view).
Proof.
  intros Hj Hi. rewrite translate_passes. cbn [fst views].
  unfold views_pass.
  destruct (l10n_views (contributions l10nMap)) as [table|].
  - exists (translate_all (translate_view table) vs).1,
      (translate_view table view).1.
    split; [|split; [|split; [|split]]].
    + rewrite translate_all_lookup, Hj. cbn [fmap option_fmap option_map].
      unfold translate_container. cbn [fst snd].
      now destruct (translate_all (translate_view table) vs).
    + now rewrite translate_all_lookup, Hi.
    + intros table' translation [= <-] Hk.
      apply translate_view_fields. unfold view_translation. now rewrite Hk.
    + intros table' inherited [= <-] Hk Hproto.
      pose proof (Object_prototype_name _ _ Hproto) as Hne.
      assert (Hlookup : view_translation table (view_id view)
                        = Some {| l10n_name := Some inherited;
                                  l10n_contextualTitle := None |}).
      { unfold view_translation. now rewrite Hk, Hproto. }
      destruct (translate_view_fields table view _ Hlookup)
        as (Hname & _ & _ & Hcontext).
      cbv zeta in Hname, Hcontext. cbn [l10n_name l10n_contextualTitle] in *.
      split; [|now apply Hcontext].
      destruct inherited as [|c n]; [contradiction|].
      specialize (Hname eq_refl). now injection Hname.
    + intros Hnone. destruct (Hnone table eq_refl) as [Hk Hproto].
      unfold translate_view, view_translation. rewrite Hk.
      destruct Hproto as [-> | ->]; [reflexivity|]. now destruct view.
  - exists vs, view. split; [exact Hj|]. split; [exact Hi|].
    split; [discriminate|]. split; [discriminate | reflexivity].
Qed.

(** ** The script, on every path *)

(** On documents that have every declared field the passes are
    [translate]. *)
Lemma translate_document_typed (l10nMap : LocalizationMap)
    (packageJson : PackageJson) :
  translate_document (l10n_document l10nMap) (package_document packageJson)
  = Some (package_document (translate l10nMap packageJson).1,
          (translate l10nMap packageJson).2).
Proof.
  unfold translate_document, l10n_document, package_document, translate,
    commands_step, views_step, configuration_step.
  cbn [document_contributions contributes mbind option_bind].
  destruct (l10n_commands (contributions l10nMap)) as [ct|];
    cbn [mbind option_bind contributes_commands];
    [destruct (translate_all (translate_command ct) (commands packageJson))
       as [cmds' n1]|];
    cbn [fst snd mbind option_bind];
    (destruct (l10n_views (contributions l10nMap)) as [vt|];
     cbn [mbind option_bind contributes_views];
     [match goal with
      | |- context [translate_all ?f (views packageJson)] =>
          destruct (translate_all f (views packageJson)) as [vs' n2]
      end|];
     cbn [fst snd mbind option_bind];
     (destruct (l10n_configuration (contributions l10nMap)) as [pt|];
      cbn [mbind option_bind contributes_configuration fst snd];
      [destruct (configuration packageJson ≫= properties) as [props|];
       [destruct (translate_all (translate_property pt) props) as [props' n3]|]
      |];
      reflexivity)).
Qed.

(** When the passes throw. *)
Lemma translate_document_throws (l10nMap : L10nDocument)
    (packageJson : PackageDocument) :
  translate_document l10nMap packageJson = None <->
  document_contributions l10nMap = None \/
  exists tables,
    document_contributions l10nMap = Some tables /\
    (is_Some (l10n_commands tables) /\
     contributes packageJson ≫= contributes_commands = None \/
     is_Some (l10n_views tables) /\
     contributes packageJson ≫= contributes_views = None \/
     is_Some (l10n_configuration tables) /\ contributes packageJson = None).
Proof.
  unfold translate_document, commands_step, views_step, configuration_step.
  destruct l10nMap as [[[ct vt pt]|]]; cbn [document_contributions];
    [|split; [now left | reflexivity]].
  destruct packageJson as [[[cmds vs conf]|]];
    cbn [contributes mbind option_bind l10n_commands l10n_views
         l10n_configuration contributes_commands contributes_views
         contributes_configuration].
  - destruct ct as [ct|], cmds as [cmds|], vt as [vt|], vs as [vs|],
      pt as [pt|];
      cbn [mbind option_bind fst snd contributes_commands contributes_views
           contributes_configuration];
      repeat match goal with
      | |- context [translate_all ?f ?l] =>
          destruct (translate_all f l) as [? ?];
          cbn [mbind option_bind fst snd contributes_commands
               contributes_views contributes_configuration]
      end;
      try (destruct (conf ≫= properties) as [props|];
           [destruct (translate_all (translate_property pt) props) as [? ?]|];
           cbn [mbind option_bind fst snd]);
      (split;
       [first
          [discriminate
          |intros _; right; eexists; split;
           [reflexivity
           |first
              [left; split; [eexists; reflexivity | reflexivity]
              |right; left; split; [eexists; reflexivity | reflexivity]
              |right; right; split; [eexists; reflexivity | reflexivity]]]]
       |intros [H | (t & [= <-] & [[H1 H2] | [[H1 H2] | [H1 H2]]])];
        try discriminate; try (destruct H1; discriminate); reflexivity]).
  - destruct ct as [ct|], vt as [vt|], pt as [pt|];
      cbn [mbind option_bind fst snd];
      (split;
       [first
          [discriminate
          |intros _; right; eexists; split;
           [reflexivity
           |first
              [left; split; [eexists; reflexivity | reflexivity]
              |right; left; split; [eexists; reflexivity | reflexivity]
              |right; right; split; [eexists; reflexivity | reflexivity]]]]
       |intros [H | (t & [= <-] & [[H1 H2] | [[H1 H2] | [H1 H2]]])];
        try discriminate; try (destruct H1; discriminate); reflexivity]).
Qed.

Section Script.

Variable JSON_parse_l10n : jsstring -> option L10nDocument.
Variable JSON_parse_package : jsstring -> option PackageDocument.
Variable JSON_stringify : PackageDocument -> jsstring.

Lemma injectLocalization_paths (w : world) :
  injectLocalization JSON_parse_l10n JSON_parse_package JSON_stringify w
  = match files w !! l10n_file with
    | None => (Some tt, stopped w [fs_exists l10n_file] [msg_start; msg_skip])
    | Some l10nText =>
        match JSON_parse_l10n l10nText with
        | None =>
            (None,
             stopped w [fs_exists l10n_file; fs_read l10n_file] [msg_start])
        | Some l10nMap =>
            match
              (files w !! package_file ≫= JSON_parse_package)
              ≫= translate_document l10nMap
            with
            | None =>
                (None,
                 stopped w
                   [fs_exists l10n_file; fs_read l10n_file;
                    fs_read package_file]
                   [msg_start])
            | Some translated =>
                let content := JSON_stringify translated.1 ++ [10%N] in
                (Some tt,
                 {| files := <[package_file := content]> (files w);
                    trace :=
                      trace w
                      ++ [fs_exists l10n_file; fs_read l10n_file;
                          fs_read package_file;
                          fs_write package_file content];
                    output :=
                      output w
                      ++ [msg_start; msg_done translated.2;
                          msg_target package_file] |})
            end
        end
    end.
Proof.
  unfold stopped, injectLocalization, mbind, IO_bind, console_log,
    existsSync, readFileSync, writeFileSync, try, record_event.
  cbn [files trace output].
  destruct (files w !! l10n_file) as [l10nText|] eqn:Hl10n.
  - rewrite bool_decide_eq_true_2 by eauto. cbn [negb files trace output].
    rewrite Hl10n.
    destruct (JSON_parse_l10n l10nText) as [l10nMap|];
      [|now rewrite <- !app_assoc].
    cbn [files trace output].
    destruct (files w !! package_file) as [packageText|];
      [|cbn; now rewrite <- !app_assoc].
    cbn [option_bind].
    destruct (JSON_parse_package packageText) as [packageJson|];
      [|cbn [files trace output]; now rewrite <- !app_assoc].
    cbn [option_bind files trace output].
    destruct (translate_document l10nMap packageJson) as [translated|];
      cbn [fst snd files trace output]; now rewrite <- !app_assoc.
  - rewrite bool_decide_eq_false_2 by (intros [? ?]; discriminate).
    cbn [negb files trace output]. now rewrite <- !app_assoc.
Qed.

(** X19. With the map and the manifest in place, readable and with
    every declared field, the script checks for the map, reads the map, reads
    the manifest and writes the manifest once: the translated manifest,
    serialized, with a newline at the end.  It prints the change count of
    [translate]. *)
Theorem X19_script_success (w : world) (l10nText packageText : jsstring)
    (l10nMap : LocalizationMap) (packageJson : PackageJson) :
  files w !! l10n_file = Some l10nText ->
  JSON_parse_l10n l10nText = Some (l10n_document l10nMap) ->
  files w !! package_file = Some packageText ->
  JSON_parse_package packageText = Some (package_document packageJson) ->
  let content :=
    JSON_stringify (package_document (translate l10nMap packageJson).1)
    ++ [10%N] in
  injectLocalization JSON_parse_l10n JSON_parse_package JSON_stringify w
  = (Some tt,
     {| files := <[package_file := content]> (files w);
        trace :=
          trace w
          ++ [fs_exists l10n_file; fs_read l10n_file; fs_read package_file;
              fs_write package_file content];
        output :=
          output w
          ++ [msg_start; msg_done (translate l10nMap packageJson).2;
              msg_target package_file] |}).
Proof.
  intros Hl Hlp Hp Hpp. cbv zeta.
  pose proof (injectLocalization_paths w) as Hrun.
  rewrite Hrun, Hl, Hlp, Hp. cbn [mbind option_bind]. rewrite Hpp.
  cbn [mbind option_bind]. now rewrite translate_document_typed.
Qed.

(** X20. The script throws exactly when the map is there and the map
    cannot be parsed, the manifest cannot be read or parsed, or the passes
    reach for a missing object: the map has no [contributions], or it has a
    table of commands (of views) and the manifest has no list of commands (of
    views), or it has a table of configuration entries and the manifest has
    no [contributes].  Then it has written nothing and printed no count.  On
    every path the only file it can change is the manifest. *)
Theorem X20_script_failure (w : world) :
  let r := injectLocalization JSON_parse_l10n JSON_parse_package
             JSON_stringify w in
  (r.1 = None <->
   exists l10nText,
     files w !! l10n_file = Some l10nText /\
     (JSON_parse_l10n l10nText = None \/
      exists l10nMap,
        JSON_parse_l10n l10nText = Some l10nMap /\
        (files w !! package_file ≫= JSON_parse_package = None \/
         exists packageJson,
           files w !! package_file ≫= JSON_parse_package = Some packageJson /\
           (document_contributions l10nMap = None \/
            exists tables,
              document_contributions l10nMap = Some tables /\
              (is_Some (l10n_commands tables) /\
               contributes packageJson ≫= contributes_commands = None \/
               is_Some (l10n_views tables) /\
               contributes packageJson ≫= contributes_views = None \/
               is_Some (l10n_configuration tables) /\
               contributes packageJson = None))))) /\
  (r.1 = None ->
   files r.2 = files w /\ output r.2 = output w ++ [msg_start]) /\
  (forall path, path <> package_file -> files r.2 !! path = files w !! path).
Proof.
  cbv zeta.
  pose proof (injectLocalization_paths w) as Hrun.
  rewrite Hrun. clear Hrun.
  destruct (files w !! l10n_file) as [l10nText|].
  - destruct (JSON_parse_l10n l10nText) as [l10nMap|] eqn:Hmap.
    + destruct (files w !! package_file ≫= JSON_parse_package)
        as [packageJson|] eqn:Hpkg; cbn [mbind option_bind].
      * pose proof (translate_document_throws l10nMap packageJson) as Hthrow.
        destruct (translate_document l10nMap packageJson) as [translated|].
        -- cbn [fst snd files]. split; [|split].
           ++ split; [discriminate|].
              intros (t & [= <-] & [H | (l & Hl & [H | (pk & Hpk & H)])]);
                [congruence | congruence|].
              rewrite Hmap in Hl. injection Hl as <-. injection Hpk as <-.
              apply Hthrow in H. discriminate.
           ++ discriminate.
           ++ intros path Hpath. now apply lookup_insert_ne.
        -- cbn [fst snd files stopped]. split; [|split]; auto.
           split; [|reflexivity]. intros _. exists l10nText.
           split; [reflexivity|]. right. exists l10nMap.
           split; [exact Hmap|]. right. exists packageJson.
           split; [reflexivity|]. now apply Hthrow.
      * cbn [fst snd files stopped]. split; [|split]; auto.
        split; [|reflexivity]. intros _. exists l10nText.
        split; [reflexivity|]. right. exists l10nMap. auto.
    + cbn [fst snd files stopped]. split; [|split]; auto.
      split; [|reflexivity]. intros _. exists l10nText. auto.
  - cbn [fst snd files stopped]. split; [|split]; auto; [|discriminate].
    split; [discriminate|]. intros (t & H & _). discriminate.
Qed.

End Script.

(** ** Rollbacks and the text of a pass *)

Section Rollbacks.

Context {engine : RegExpEngine}.

Lemma fold_rollbacks (rules : list rule) (st : run) :
  let st' := fold_left step rules st in
  (rollbacks st < rollbacks st' ->
   hasChineseIdentifier (result st') = false) /\
  (rollbacks st' = rollbacks st ->
   result st' = unguarded rules (result st)).
Proof.
  revert st. induction rules as [|r rules IH]; intros st;
    cbn [fold_left unguarded].
  - cbv zeta. split; [lia | reflexivity].
  - specialize (IH (step st r)). cbv zeta in IH |- *.
    destruct IH as [IHclean IHsame].
    pose proof (fold_counters rules (step st r)) as (_ & Hmono & _).
    cbv zeta in Hmono.
    pose proof (step_rollbacks st r) as Hr.
    pose proof (step_result st r) as Ht. unfold step_text in Ht.
    destruct (guard_fires r (result st)) eqn:Hfires.
    + split; [|lia]. intros _.
      rewrite result_fold. apply fold_step_text_clean.
      rewrite Ht. unfold guard_fires in Hfires.
      apply andb_true_iff in Hfires as [_ Hfires].
      now apply negb_true_iff in Hfires.
    + split.
      * intros Hlt. apply IHclean. lia.
      * intros Hsame. rewrite IHsame by lia. now rewrite Ht.
Qed.

(** X21. A pass that rolled something back ends on a text without a
    signature, whatever its input was. *)
Theorem X21_rollback_means_clean (m : L10nMap) (source : jsstring) :
  0 < rollbacks (run_rules m source) ->
  hasChineseIdentifier (result (run_rules m source)) = false.
Proof.
  rewrite run_rules_fold.
  apply (fold_rollbacks (rules_of m) (start source)).
Qed.

(** X22. A pass that rolled nothing back applied every rule as it is:
    its text is the text of the rules without the guard. *)
Theorem X22_no_rollback_is_unguarded (m : L10nMap) (source : jsstring) :
  rollbacks (run_rules m source) = 0 ->
  result (run_rules m source) = unguarded (rules_of m) source.
Proof.
  rewrite run_rules_fold.
  apply (fold_rollbacks (rules_of m) (start source)).
Qed.

End Rollbacks.

(** * The further properties at the sample data *)

(** X1 at the sample data. *)
Lemma X1_signature_shapes_witness :
  let code := js "export " ++ Sample.zh_translation in
  (exists pre kw ws c post,
     code = pre ++ (kw ++ ws ++ [c]) ++ post /\ In kw keywords /\ ws <> []
     /\ forallb whitespace ws = true /\ cjk c = true) /\
  hasChineseIdentifier code = true.
Proof.
  intros code.
  assert (H : exists pre kw ws c post,
              code = pre ++ (kw ++ ws ++ [c]) ++ post /\ In kw keywords
              /\ ws <> [] /\ forallb whitespace ws = true /\ cjk c = true).
  { exists [], (js "export"), (js " "), 0x7ffb%N, [0x8bd1%N].
    repeat split; [now left | discriminate]. }
  split; [exact H|].
  apply (proj2 (X1_signature_shapes code)). left. exact H.
Defined.

(** X2 at the sample data. *)
Lemma X2_no_cjk_no_signature_witness :
  let code := js "function Open_Changes(){}" in
  let st := start code in
  let r := exact_rule (js "Open") (js "Opened") in
  forallb (fun c => negb (cjk c)) code = true /\
  hasChineseIdentifier code = false /\
  forallb (fun c => negb (cjk c)) (@candidate LiteralEngine r (result st))
  = true /\
  rollbacks (@step LiteralEngine st r) = rollbacks st.
Proof.
  intros code st r.
  assert (H1 : forallb (fun c => negb (cjk c)) code = true)
    by (vm_compute; reflexivity).
  assert (H2 : forallb (fun c => negb (cjk c))
                 (@candidate LiteralEngine r (result st)) = true)
    by (vm_compute; reflexivity).
  split; [exact H1|]. split.
  - exact (proj1 (@X2_no_cjk_no_signature LiteralEngine) code H1).
  - split; [exact H2|].
    exact (proj2 (proj2 (@X2_no_cjk_no_signature LiteralEngine) r st H2)).
Defined.

(** X3 at the sample data. *)
Lemma X3_signature_survives_context_witness :
  let code := js "export " ++ Sample.zh_translation in
  hasChineseIdentifier code = true /\
  hasChineseIdentifier (js "a; " ++ code ++ js " = 1;") = true.
Proof.
  intros code.
  assert (H : hasChineseIdentifier code = true) by (vm_compute; reflexivity).
  split; [exact H|].
  exact (X3_signature_survives_context (js "a; ") code (js " = 1;") H).
Defined.

(** X4 at the sample data. *)
Lemma X4_escapeRegExp_round_trip_witness :
  forallb (fun c => negb (special c)) (js "Open Changes") = true /\
  escapeRegExp (js "Open Changes") = js "Open Changes" /\
  js "a.b" = js "a.b".
Proof.
  destruct X4_escapeRegExp_round_trip as (_ & Hinj & Hplain).
  assert (H : forallb (fun c => negb (special c)) (js "Open Changes") = true)
    by (vm_compute; reflexivity).
  split; [exact H|]. split; [exact (Hplain _ H)|].
  exact (Hinj (js "a.b") (js "a.b") eq_refl).
Defined.

(** X6 at the sample data. *)
Lemma X6_changed_text_is_counted_witness :
  let this := Sample.plugin Sample.open_changes_map in
  let r := @replaceStrings LiteralEngine this Sample.open_changes_text
             (js "extension.js") in
  r.1.1 <> Sample.open_changes_text /\
  filesProcessed (stats r.1.2) = 1 /\
  0 < stringsReplaced (stats r.1.2).
Proof.
  intros this r.
  assert (H : r.1.1 <> Sample.open_changes_text)
    by (intros H; vm_compute in H; discriminate H).
  split; [exact H|].
  exact (@X6_changed_text_is_counted LiteralEngine this
           Sample.open_changes_text (js "extension.js") H).
Defined.

(** X9 at the sample data. *)
Lemma X9_eligible_suffix_witness :
  (exists stem, js "dist/extension.js" = stem ++ js ".js") /\
  eligible (js "dist/extension.js") = true.
Proof.
  assert (H : exists stem, js "dist/extension.js" = stem ++ js ".js")
    by (exists (js "dist/extension"); reflexivity).
  split; [exact H|].
  exact (proj2 (X9_eligible_suffix (js "dist/extension.js")) H).
Defined.

(** X10 at the sample data. *)
Lemma X10_assets_kept_in_place_witness :
  let this := Sample.plugin Sample.open_changes_map in
  let out := (@processAssets LiteralEngine (fun b => b) this Sample.assets).1.1 in
  Sample.assets !! 0
  = Some (js "extension.js", source_string Sample.open_changes_text) /\
  (out !! 0
   = Some (js "extension.js", source_string Sample.open_changes_text) \/
   eligible (js "extension.js") = true /\
   exists text,
     out !! 0 = Some (js "extension.js", source_string text)
     /\ text <> Sample.open_changes_text).
Proof.
  intros this out. split; [reflexivity|].
  exact (proj2 (@X10_assets_kept_in_place LiteralEngine (fun b => b) this
                  Sample.assets)
           0 (js "extension.js") (source_string Sample.open_changes_text)
           eq_refl).
Defined.

(** X11 at the sample data. *)
Lemma X11_statistics_add_up_witness :
  let this := Sample.plugin Sample.open_changes_map in
  let this' := (@processAssets LiteralEngine (fun b => b) this Sample.assets).1.2 in
  l10nMap this = Some Sample.open_changes_map /\
  filesProcessed (stats this')
  = 0 + length (List.filter
                  (@active LiteralEngine (fun b => b) Sample.open_changes_map)
                  Sample.assets) /\
  stringsReplaced (stats this')
  = 0 + list_sum (map (@accepted LiteralEngine (fun b => b)
                         Sample.open_changes_map) Sample.assets).
Proof.
  intros this this'. split; [reflexivity|].
  destruct (@X11_statistics_add_up LiteralEngine (fun b => b) this
              Sample.open_changes_map Sample.assets eq_refl)
    as (Hf & Hs & _).
  split; [exact Hf | exact Hs].
Defined.

(** X12 at the sample data. *)
Lemma X12_no_map_no_change_witness :
  let this := Sample.plugin Sample.open_changes_map in
  let build := @compilation LiteralEngine (fun b => b) Fixture.parse_map this
                 ∅ Sample.assets in
  (∅ : gmap string jsstring) !! l10nPath this = None /\
  build.1.1 = Sample.assets /\ stats build.1.2 = stats this.
Proof.
  intros this build.
  assert (H : (∅ : gmap string jsstring) !! l10nPath this = None)
    by reflexivity.
  split; [exact H|].
  destruct (@X12_no_map_no_change LiteralEngine (fun b => b)
              Fixture.parse_map this ∅ Sample.assets
              (or_intror (or_introl H)))
    as (Hassets & Hstats & _).
  split; [exact Hassets | exact Hstats].
Defined.

(** X13 at the sample data. *)
Lemma X13_build_summary_witness :
  let this := constructor "l10n/zh-cn.json" Fixture.default_options in
  let build := @compilation LiteralEngine (fun b => b) Fixture.parse_map this
                 Fixture.disk Sample.assets in
  Fixture.disk !! l10nPath this = Some (js "map") /\
  Fixture.parse_map (js "map") = Some Sample.open_changes_map /\
  done_hook build.1.2 = Some (1, 1).
Proof.
  intros this build.
  assert (Hfile : Fixture.disk !! l10nPath this = Some (js "map"))
    by (vm_compute; reflexivity).
  assert (Hparse : Fixture.parse_map (js "map") = Some Sample.open_changes_map)
    by reflexivity.
  split; [exact Hfile|]. split; [exact Hparse|].
  exact (proj1 (@X13_build_summary LiteralEngine (fun b => b)
                  Fixture.parse_map "l10n/zh-cn.json" Fixture.default_options
                  Fixture.disk Sample.assets)
           (js "map") Sample.open_changes_map ltac:(discriminate)
           Hfile Hparse).
Defined.

(** X16 at the sample data. *)
Lemma X16_change_count_witness :
  (translate Fixture.no_tables Fixture.manifest).2 = 0 /\
  (translate Fixture.no_tables Fixture.manifest).1 = Fixture.manifest.
Proof.
  assert (H : (translate Fixture.no_tables Fixture.manifest).2 = 0)
    by reflexivity.
  split; [exact H|].
  exact (proj1 (X16_change_count Fixture.no_tables Fixture.manifest) H).
Defined.

(** X17 at the sample data. *)
Lemma X17_command_fields_witness :
  commands Fixture.manifest !! 0 = Some Fixture.graph_command /\
  exists cmd',
    commands (translate Fixture.localization Fixture.manifest).1 !! 0
    = Some cmd' /\
    Some (title cmd') = Some Sample.zh_open /\
    category cmd' = Some (js "GitLens").
Proof.
  assert (Hi : commands Fixture.manifest !! 0 = Some Fixture.graph_command)
    by reflexivity.
  split; [exact Hi|].
  destruct (X17_command_fields Fixture.localization Fixture.manifest 0
              Fixture.graph_command Hi) as (cmd' & Hlookup & Hfields & _).
  exists cmd'. split; [exact Hlookup|].
  destruct (Hfields _ _ eq_refl ltac:(vm_compute; reflexivity))
    as (Htitle & _ & Hcategory & _).
  split; [apply Htitle | apply Hcategory]; reflexivity.
Defined.

(** X18 at the sample data. *)
Lemma X18_view_fields_witness :
  views Fixture.manifest !! 0 = Some (js "gitlens", [Fixture.home_view]) /\
  [Fixture.home_view] !! 0 = Some Fixture.home_view /\
  exists vs' view',
    views (translate Fixture.localization Fixture.manifest).1 !! 0
    = Some (js "gitlens", vs') /\
    vs' !! 0 = Some view' /\
    Some (name view') = Some Sample.zh_settings /\
    contextualTitle view' = None.
Proof.
  assert (Hj : views Fixture.manifest !! 0
               = Some (js "gitlens", [Fixture.home_view])) by reflexivity.
  assert (Hi : [Fixture.home_view] !! 0 = Some Fixture.home_view)
    by reflexivity.
  split; [exact Hj|]. split; [exact Hi|].
  destruct (X18_view_fields Fixture.localization Fixture.manifest 0 0
              (js "gitlens") [Fixture.home_view] Fixture.home_view Hj Hi)
    as (vs' & view' & Hvs & Hview & Hfields & _).
  exists vs', view'. split; [exact Hvs|]. split; [exact Hview|].
  destruct (Hfields _ _ eq_refl ltac:(vm_compute; reflexivity))
    as (Hname & _ & _ & Hcontext).
  split; [apply Hname | apply Hcontext]; reflexivity.
Defined.

(** The views named after inherited members, against a table without
    keys: the first is renamed to the name of the [Object] function, the second
    to [toString], both count as a change, and the contextual titles stay. *)
Lemma translate_view_inherited_example :
  translate_all (translate_view ∅)
    [Fixture.constructor_view; Fixture.toString_view]
  = ([{| view_id := js "constructor"; name := js "Object";
         contextualTitle := None |};
      {| view_id := js "toString"; name := js "toString";
         contextualTitle := Some (js "As text") |}], 2).
Proof. vm_compute. reflexivity. Qed.

(** X19 at the sample data. *)
Lemma X19_script_success_witness :
  files Fixture.tree !! l10n_file = Some (js "l10n") /\
  files Fixture.tree !! package_file = Some (js "manifest") /\
  (injectLocalization Fixture.parse_l10n Fixture.parse_package
     Fixture.stringify Fixture.tree).1 = Some tt.
Proof.
  assert (Hl : files Fixture.tree !! l10n_file = Some (js "l10n"))
    by (vm_compute; reflexivity).
  assert (Hp : files Fixture.tree !! package_file = Some (js "manifest"))
    by (vm_compute; reflexivity).
  split; [exact Hl|]. split; [exact Hp|].
  now rewrite (X19_script_success Fixture.parse_l10n Fixture.parse_package
                 Fixture.stringify Fixture.tree (js "l10n") (js "manifest")
                 Fixture.localization Fixture.manifest Hl eq_refl Hp eq_refl).
Defined.

(** X20 at the sample data: the manifest is the empty object and the map
    has a table of commands, so the loop over the commands reaches for the
    list of a missing [contributes]. *)
Lemma X20_script_failure_witness :
  let r := injectLocalization Fixture.parse_l10n Fixture.parse_package
             Fixture.stringify Fixture.hollow_tree in
  r.1 = None /\
  files r.2 = files Fixture.hollow_tree /\
  output r.2 = [msg_start].
Proof.
  intros r.
  destruct (X20_script_failure Fixture.parse_l10n Fixture.parse_package
              Fixture.stringify Fixture.hollow_tree)
    as (Hthrows & Hclean & _).
  assert (H : r.1 = None).
  { apply Hthrows. exists (js "l10n"). split; [vm_compute; reflexivity|].
    right. exists (l10n_document Fixture.localization).
    split; [vm_compute; reflexivity|].
    right. exists {| contributes := None |}.
    split; [vm_compute; reflexivity|].
    right. exists (contributions Fixture.localization).
    split; [reflexivity|].
    left. split; [eexists; reflexivity | reflexivity]. }
  split; [exact H|]. exact (Hclean H).
Defined.

(** X21 at the sample data. *)
Lemma X21_rollback_means_clean_witness :
  0 < rollbacks (@run_rules LiteralEngine Sample.settings_map
                  Sample.settings_text) /\
  hasChineseIdentifier
    (result (@run_rules LiteralEngine Sample.settings_map
               Sample.settings_text)) = false.
Proof.
  assert (H : 0 < rollbacks (@run_rules LiteralEngine Sample.settings_map
                               Sample.settings_text))
    by (vm_compute; lia).
  split; [exact H|].
  exact (@X21_rollback_means_clean LiteralEngine Sample.settings_map
           Sample.settings_text H).
Defined.

(** X22 at the sample data. *)
Lemma X22_no_rollback_is_unguarded_witness :
  rollbacks (@run_rules LiteralEngine Sample.open_paren_map
               Sample.corrupted_text) = 0 /\
  result (@run_rules LiteralEngine Sample.open_paren_map Sample.corrupted_text)
  = @unguarded LiteralEngine (rules_of Sample.open_paren_map)
      Sample.corrupted_text.
Proof.
  assert (H : rollbacks (@run_rules LiteralEngine Sample.open_paren_map
                           Sample.corrupted_text) = 0)
    by (vm_compute; reflexivity).
  split; [exact H|].
  exact (@X22_no_rollback_is_unguarded LiteralEngine Sample.open_paren_map
           Sample.corrupted_text H).
Defined.

(** * Idempotence of the exact pass *)

(** ** Words between quote characters *)

Lemma is_quote_cases (c : N) :
  is_quote c = true <-> c = dquote \/ c = squote \/ c = backtick.
Proof.
  unfold is_quote, one_of, quoteChars. cbn [existsb].
  rewrite !orb_true_iff, !N.eqb_eq. intuition discriminate.
Qed.

Lemma is_quote_In (q : N) : In q quoteChars -> is_quote q = true.
Proof.
  intros H. apply is_quote_cases. cbn in H. intuition.
Qed.

Lemma text_of_tokenize (s : jsstring) :
  fst (tokenize s) ++ text_of (snd (tokenize s)) = s.
Proof.
  induction s as [|c s IH]; [reflexivity|].
  cbn [tokenize]. destruct (tokenize s) as [w l]. cbn [fst snd] in IH.
  destruct (is_quote c); cbn [fst snd text_of flat_map app];
    fold (text_of l); now rewrite IH.
Qed.

Lemma tokenize_wf (s : jsstring) :
  quote_free (fst (tokenize s)) = true /\ wf (snd (tokenize s)).
Proof.
  induction s as [|c s IH]; [split; [reflexivity | constructor]|].
  cbn [tokenize]. destruct (tokenize s) as [w l]. cbn [fst snd] in IH.
  destruct IH as [Hw Hl].
  destruct (is_quote c) eqn:Hc; cbn [fst snd].
  - split; [reflexivity|]. constructor; [now split | exact Hl].
  - split; [|exact Hl]. cbn [quote_free forallb]. now rewrite Hc.
Qed.

Lemma tokenize_text_of (w : jsstring) (l : list (N * jsstring)) :
  quote_free w = true -> wf l ->
  tokenize (w ++ text_of l) = (w, l).
Proof.
  intros Hw Hl. revert w Hw.
  induction Hl as [|[q1 w1] rest [Hq Hw1] Hrest IH]; intros w Hw.
  - cbn [text_of flat_map]. rewrite app_nil_r.
    induction w as [|c w IHw]; [reflexivity|].
    cbn [quote_free forallb] in Hw. apply andb_true_iff in Hw as [Hc Hw].
    cbn [tokenize]. rewrite (IHw Hw).
    apply negb_true_iff in Hc. now rewrite Hc.
  - cbn [fst snd] in Hq, Hw1.
    induction w as [|c w IHw].
    + cbn [app text_of flat_map fst snd tokenize].
      fold (text_of rest). rewrite (IH w1 Hw1). now rewrite Hq.
    + cbn [quote_free forallb] in Hw. apply andb_true_iff in Hw as [Hc Hw].
      cbn [app tokenize]. rewrite (IHw Hw).
      apply negb_true_iff in Hc. now rewrite Hc.
Qed.

(** ** The token view of a literal replacement *)

Lemma replaceAll_nil (lit rep : jsstring) :
  lit <> [] -> replaceAll lit rep [] = [].
Proof. intros H. unfold replaceAll. cbn. now destruct lit. Qed.

Lemma replaceAll_miss (lit rep : jsstring) (c : N) (s : jsstring) :
  startsWith lit (c :: s) = false ->
  replaceAll lit rep (c :: s) = c :: replaceAll lit rep s.
Proof.
  intros H. unfold replaceAll. cbn [replace_from]. rewrite H.
  f_equal. apply replace_from_offset.
Qed.

Lemma replaceAll_hit (lit rep s : jsstring) :
  lit <> [] ->
  replaceAll lit rep (lit ++ s) = rep ++ replaceAll lit rep s.
Proof.
  intros H. apply (replaceAll_first lit rep [] s H).
  intros i Hi. cbn in Hi. lia.
Qed.

Lemma replaceAll_word (q : N) (en rep w s : jsstring) :
  is_quote q = true -> quote_free w = true ->
  replaceAll (quoted q en) rep (w ++ s)
  = w ++ replaceAll (quoted q en) rep s.
Proof.
  intros Hq. induction w as [|c w IH]; intros Hw; [reflexivity|].
  cbn [quote_free forallb] in Hw. apply andb_true_iff in Hw as [Hc Hw].
  cbn [app]. rewrite replaceAll_miss.
  - now rewrite IH.
  - unfold quoted. cbn [startsWith].
    destruct (N.eqb_spec q c) as [->|]; [|reflexivity].
    rewrite Hq in Hc. discriminate.
Qed.

Lemma startsWith_word (q : N) (en w : jsstring) (rest : list (N * jsstring)) :
  is_quote q = true -> quote_free en = true -> quote_free w = true ->
  wf rest ->
  startsWith (en ++ [q]) (w ++ text_of rest)
  = str_eqb w en
    && match rest with
       | t :: _ => (fst t =? q)%N
       | [] => false
       end.
Proof.
  intros Hq Hen Hw Hrest. revert w Hw.
  induction en as [|e en IH]; intros w Hw.
  - destruct w as [|c w].
    + cbn [app]. destruct rest as [|[q2 w2] rest'].
      * reflexivity.
      * cbn [text_of flat_map fst snd app startsWith].
        rewrite andb_true_r, N.eqb_sym. reflexivity.
    + cbn [app startsWith]. cbn [quote_free forallb] in Hw.
      apply andb_true_iff in Hw as [Hc _].
      destruct (N.eqb_spec q c) as [->|].
      * rewrite Hq in Hc. discriminate.
      * reflexivity.
  - cbn [quote_free forallb] in Hen. apply andb_true_iff in Hen as [He Hen].
    destruct w as [|c w].
    + cbn [app]. destruct rest as [|[q2 w2] rest']; [reflexivity|].
      cbn [text_of flat_map fst snd app startsWith].
      apply Forall_inv in Hrest. cbn [fst] in Hrest. destruct Hrest as [Hq2 _].
      destruct (N.eqb_spec e q2) as [->|]; [|reflexivity].
      rewrite Hq2 in He. discriminate.
    + cbn [quote_free forallb] in Hw. apply andb_true_iff in Hw as [Hc Hw].
      cbn [app startsWith]. rewrite (IH Hen w Hw).
      unfold str_eqb.
      destruct (N.eqb_spec e c) as [->|Hne].
      * cbn [andb]. f_equal.
        destruct (decide (w = en)) as [->|Hn].
        -- now rewrite !bool_decide_eq_true_2.
        -- rewrite !bool_decide_eq_false_2; [reflexivity| |assumption].
           intros [= ?]. contradiction.
      * cbn [andb]. rewrite bool_decide_eq_false_2; [reflexivity|].
        intros [= ? ?]. congruence.
Qed.

Lemma startsWith_token (q : N) (en : jsstring) (t : N * jsstring)
    (rest : list (N * jsstring)) :
  is_quote q = true -> quote_free en = true -> wf (t :: rest) ->
  startsWith (quoted q en) (text_of (t :: rest)) = hit q en (t :: rest).
Proof.
  intros Hq Hen Hl. destruct t as [q1 w1].
  pose proof (Forall_inv Hl) as [_ Hw1]. cbn [snd] in Hw1.
  pose proof (Forall_inv_tail Hl) as Hrest.
  unfold quoted. cbn [text_of flat_map fst snd app startsWith].
  fold (text_of rest).
  rewrite (startsWith_word q en w1 rest Hq Hen Hw1 Hrest).
  unfold hit. rewrite (N.eqb_sym q q1).
  destruct rest as [|[q2 w2] rest']; cbn [fst].
  - now rewrite !andb_false_r.
  - now rewrite andb_assoc.
Qed.

Lemma hit_inv (q : N) (en : jsstring) (l : list (N * jsstring)) :
  hit q en l = true ->
  exists w2 rest, l = (q, en) :: (q, w2) :: rest.
Proof.
  destruct l as [|[q1 w1] [|[q2 w2] rest]]; try discriminate.
  cbn [hit]. rewrite !andb_true_iff, !N.eqb_eq, str_eqb_eq.
  intros [[-> ->] ->]. eauto.
Qed.

Lemma replaceAll_tokens_rest (q : N) (en zh : jsstring) :
  is_quote q = true -> quote_free en = true ->
  forall n l, length l <= n -> wf l ->
    replaceAll (quoted q en) (quoted q zh) (text_of l)
    = text_of (treplace q en zh false l).
Proof.
  intros Hq Hen.
  assert (Hlit : quoted q en <> []) by discriminate.
  induction n as [|n IH]; intros l Hn Hl.
  - destruct l; [|cbn in Hn; lia]. now apply replaceAll_nil.
  - destruct l as [|t rest]; [now apply replaceAll_nil|].
    cbn [treplace negb andb].
    pose proof (startsWith_token q en t rest Hq Hen Hl) as Hstart.
    destruct (hit q en (t :: rest)) eqn:Hhit.
    + apply hit_inv in Hhit as (w2 & rest' & Heq).
      injection Heq as -> ->.
      cbn [treplace negb andb fst].
      pose proof (Forall_inv_tail Hl) as Hrest.
      pose proof (Forall_inv Hrest) as [_ Hw2]. cbn [snd] in Hw2.
      pose proof (Forall_inv_tail Hrest) as Hrest'.
      cbn [text_of flat_map fst snd].
      fold (text_of rest').
      fold (text_of (treplace q en zh false rest')).
      assert (Htext : forall w s : jsstring,
                (q :: w) ++ (q :: w2) ++ s = quoted q w ++ w2 ++ s).
      { intros w s. unfold quoted. cbn [app]. now rewrite <- app_assoc. }
      rewrite !Htext, (replaceAll_hit _ _ _ Hlit).
      rewrite (replaceAll_word q en _ w2 _ Hq Hw2).
      rewrite (IH rest') by first [assumption | cbn in Hn; lia].
      reflexivity.
    + destruct t as [q1 w1].
      pose proof (Forall_inv Hl) as [_ Hw1]. cbn [snd] in Hw1.
      pose proof (Forall_inv_tail Hl) as Hrest.
      cbn [text_of flat_map fst snd] in Hstart |- *.
      fold (text_of rest) in Hstart |- *.
      fold (text_of (treplace q en zh false rest)).
      cbn [app] in Hstart |- *.
      rewrite (replaceAll_miss _ _ _ _ Hstart).
      rewrite (replaceAll_word q en _ w1 _ Hq Hw1).
      rewrite (IH rest) by first [assumption | cbn in Hn; lia].
      reflexivity.
Qed.

Lemma treplace_quotes (q : N) (en zh : jsstring) (b : bool)
    (l : list (N * jsstring)) :
  map fst (treplace q en zh b l) = map fst l.
Proof.
  revert b. induction l as [|t rest IH]; intros b; [reflexivity|].
  cbn [treplace]. destruct (negb b && hit q en (t :: rest));
    cbn [map fst]; now rewrite IH.
Qed.

Lemma treplace_wf (q : N) (en zh : jsstring) (b : bool)
    (l : list (N * jsstring)) :
  quote_free zh = true -> wf l -> wf (treplace q en zh b l).
Proof.
  intros Hzh Hl. revert b.
  induction Hl as [|t rest [Hq Hw] Hrest IH]; intros b; [constructor|].
  cbn [treplace]. destruct (negb b && hit q en (t :: rest));
    constructor; cbn [fst snd]; auto; apply IH.
Qed.

(** A literal replacement of a quoted key, seen on the tokens. *)
Lemma tokenize_replaceAll (q : N) (en zh text : jsstring) :
  is_quote q = true -> quote_free en = true -> quote_free zh = true ->
  tokenize (replaceAll (quoted q en) (quoted q zh) text)
  = (fst (tokenize text), treplace q en zh false (tokens text)).
Proof.
  intros Hq Hen Hzh.
  destruct (tokenize_wf text) as [Hw Hl].
  rewrite <- (text_of_tokenize text) at 1.
  rewrite (replaceAll_word q en _ _ _ Hq Hw).
  rewrite (replaceAll_tokens_rest q en zh Hq Hen _ _ (Nat.le_refl _) Hl).
  apply tokenize_text_of; [exact Hw|]. now apply treplace_wf.
Qed.

(** ** Quoted keys on the tokens *)

Lemma treplace_cons (q : N) (en zh : jsstring) (b : bool) (t : N * jsstring)
    (rest : list (N * jsstring)) :
  exists w b',
    (w = zh \/ w = snd t) /\
    treplace q en zh b (t :: rest) = (fst t, w) :: treplace q en zh b' rest.
Proof.
  cbn [treplace]. destruct (negb b && hit q en (t :: rest)).
  - exists zh, true. auto.
  - exists (snd t), false. split; [auto | now destruct t].
Qed.

Lemma hit_word (q : N) (en : jsstring) (q1 : N) (w : jsstring)
    (l : list (N * jsstring)) :
  hit q en ((q1, w) :: l) = true -> w = en.
Proof. intros H. apply hit_inv in H as (w2 & rest & [= _ -> _]). reflexivity. Qed.

Lemma hit_quotes (q : N) (en : jsstring) (q1 : N) (w : jsstring)
    (l l' : list (N * jsstring)) :
  map fst l = map fst l' ->
  hit q en ((q1, w) :: l) = hit q en ((q1, w) :: l').
Proof.
  destruct l as [|[q2 w2] l], l' as [|[q2' w2'] l']; try discriminate;
    [reflexivity|].
  cbn [map fst hit]. now intros [= -> _].
Qed.

Lemma hit_treplace (q q' : N) (en en' zh : jsstring) (b : bool)
    (l : list (N * jsstring)) :
  zh <> en' ->
  hit q' en' (treplace q en zh b l) = true -> hit q' en' l = true.
Proof.
  intros Hne. destruct l as [|[q1 w1] rest]; [discriminate|].
  destruct (treplace_cons q en zh b (q1, w1) rest) as (w & b' & Hw & ->).
  cbn [fst snd] in *. intros H.
  pose proof (hit_word _ _ _ _ _ H) as ->.
  destruct Hw as [-> | ->]; [contradiction|].
  now rewrite (hit_quotes q' w1 q1 w1 _ _ (treplace_quotes q en zh b' rest))
    in H.
Qed.

Lemma treplace_absent (q : N) (en zh : jsstring) (b : bool)
    (l : list (N * jsstring)) :
  occurs q en l = false -> treplace q en zh b l = l.
Proof.
  revert b. induction l as [|t rest IH]; intros b H; [reflexivity|].
  cbn [occurs] in H. apply orb_false_iff in H as [Hhit Hrest].
  cbn [treplace]. rewrite Hhit, andb_false_r. now rewrite IH.
Qed.



Lemma overlap_treplace (q q' : N) (en en' zh : jsstring) (b : bool)
    (l : list (N * jsstring)) :
  zh <> en' ->
  overlap q' en' l = false ->
  overlap q' en' (treplace q en zh b l) = false.
Proof.
  intros Hne. revert b.
  induction l as [|t rest IH]; intros b H; [reflexivity|].
  cbn [overlap] in H. apply orb_false_iff in H as [Hboth Hrest].
  pose proof (hit_treplace q q' en en' zh b (t :: rest) Hne) as Hback.
  destruct (treplace_cons q en zh b t rest) as (w & b' & _ & Heq).
  rewrite Heq in Hback |- *. cbn [overlap].
  rewrite (IH b' Hrest), orb_false_r.
  pose proof (hit_treplace q q' en en' zh b' rest Hne) as Hback'.
  destruct (hit q' en' ((t.1, w) :: _)) eqn:H; [|reflexivity].
  destruct (hit q' en' (treplace q en zh b' rest)) eqn:H'; [|reflexivity].
  specialize (Hback eq_refl). specialize (Hback' eq_refl).
  rewrite Hback, Hback' in Hboth. discriminate.
Qed.



(** ** Signatures lie within words *)














(** ** The passes of one entry, on the tokens *)

Lemma passes_absent (en zh : jsstring) (qs : list N)
    (l : list (N * jsstring)) :
  (forall q, In q qs -> occurs q en l = false) -> passes en zh qs l = l.
Proof.
  unfold passes. induction qs as [|q qs IH]; intros H; [reflexivity|].
  cbn [fold_left]. rewrite treplace_absent by (apply H; now left).
  apply IH. intros q' Hq'. apply H. now right.
Qed.





Lemma passes_overlap (en en' zh : jsstring) (q' : N) (qs : list N)
    (l : list (N * jsstring)) :
  zh <> en' ->
  overlap q' en' l = false -> overlap q' en' (passes en zh qs l) = false.
Proof.
  intros Hne. unfold passes. revert l.
  induction qs as [|q qs IH]; intros l H; [exact H|].
  cbn [fold_left]. now apply IH, overlap_treplace.
Qed.



(** The text of an entry, seen on the tokens. *)
Lemma tokenize_passes (en zh : jsstring) (qs : list N) (text : jsstring) :
  quote_free en = true -> quote_free zh = true ->
  (forall q, In q qs -> is_quote q = true) ->
  tokenize (fold_left (fun t q => replaceAll (quoted q en) (quoted q zh) t)
           qs text)
  = (fst (tokenize text), passes en zh qs (tokens text)).
Proof.
  intros Hen Hzh. unfold passes. revert text.
  induction qs as [|q qs IH]; intros text Hqs.
  - cbn [fold_left]. unfold tokens. now destruct (tokenize text).
  - cbn [fold_left]. rewrite IH by (intros q' Hq'; apply Hqs; now right).
    unfold tokens.
    now rewrite tokenize_replaceAll by (try assumption; apply Hqs; now left).
Qed.

Section Settled.

Context {engine : RegExpEngine}.

Lemma candidate_exact (en zh text : jsstring) :
  startsWith (js "_") en = false ->
  candidate (exact_rule en zh) text
  = fold_left (fun t q => replaceAll (quoted q en) (quoted q zh) t)
      quoteChars text.
Proof. intros H. unfold candidate. rewrite H. apply quote_fold_text. Qed.

Lemma tokenize_candidate (en zh text : jsstring) :
  startsWith (js "_") en = false ->
  quote_free en = true -> quote_free zh = true ->
  tokenize (candidate (exact_rule en zh) text)
  = (fst (tokenize text), passes en zh quoteChars (tokens text)).
Proof.
  intros Hmeta Hen Hzh. rewrite candidate_exact by exact Hmeta.
  apply tokenize_passes; try assumption. apply is_quote_In.
Qed.

Lemma candidate_metadata (en zh text : jsstring) :
  startsWith (js "_") en = true -> candidate (exact_rule en zh) text = text.
Proof. intros H. unfold candidate. now rewrite H. Qed.


Lemma tokens_candidate (en zh text : jsstring) :
  startsWith (js "_") en = false ->
  quote_free en = true -> quote_free zh = true ->
  tokens (candidate (exact_rule en zh) text)
  = passes en zh quoteChars (tokens text).
Proof.
  intros Hmeta Hen Hzh. unfold tokens at 1.
  now rewrite (tokenize_candidate en zh text Hmeta Hen Hzh).
Qed.

(** What a step does to the tokens. *)
Lemma step_text_cases (entries : list (jsstring * jsstring)) (r : rule)
    (text : jsstring) :
  separate entries -> plain_rule entries r ->
  step_text text r = text \/
  exists en zh,
    r = exact_rule en zh /\ In (en, zh) entries /\
    startsWith (js "_") en = false /\
    guard_fires r text = false /\
    step_text text r = candidate r text /\
    tokens (step_text text r) = passes en zh quoteChars (tokens text).
Proof.
  intros [Hfree _] Hr. destruct r as [en zh|p|p]; [|destruct Hr..].
  destruct Hr as [Hmeta | [Hmeta Hin]].
  - left. unfold step_text. rewrite (candidate_metadata en zh text Hmeta).
    now destruct (guard_fires _ _).
  - destruct (Hfree en zh Hin) as [Hen Hzh]. unfold step_text.
    destruct (guard_fires (exact_rule en zh) text) eqn:Hfires; [now left|].
    right. exists en, zh.
    repeat (split; [first [reflexivity | assumption]|]).
    now apply tokens_candidate.
Qed.

Lemma step_overlap_free (entries : list (jsstring * jsstring)) (r : rule)
    (text : jsstring) :
  separate entries -> plain_rule entries r ->
  overlap_free entries text -> overlap_free entries (step_text text r).
Proof.
  intros Hsep Hr Hinv.
  destruct (step_text_cases entries r text Hsep Hr)
    as [-> | (en & zh & -> & Hin & _ & _ & _ & Htok)]; [exact Hinv|].
  intros en' zh' q Hin' Hq. rewrite Htok.
  apply passes_overlap; [|now apply (Hinv en' zh')].
  destruct Hsep as [_ Hdis]. now apply (Hdis en zh en' zh').
Qed.



Lemma fold_overlap_free (entries : list (jsstring * jsstring))
    (rules : list rule) (text : jsstring) :
  separate entries -> Forall (plain_rule entries) rules ->
  overlap_free entries text ->
  overlap_free entries (fold_left step_text rules text).
Proof.
  intros Hsep Hrules. revert text.
  induction Hrules as [|r rules Hr Hrules IH]; intros text Hinv;
    [exact Hinv|].
  cbn [fold_left]. now apply IH, step_overlap_free.
Qed.






End Settled.

(** ** Shared quotes, in the text and on the tokens *)




(** ** The conditions, unfolded *)




Section IdempotenceClaim.

Context {engine : RegExpEngine}.


End IdempotenceClaim.


(** The condition on the translations is needed: when the translation of
    a later entry is the key of an earlier one, the second run carries the
    text one entry further. *)
Lemma idempotence_needs_separate_entries :
  let this := Sample.plugin Sample.relay_map in
  let text := Sample.dq (js "a") in
  no_translation_is_key (plain_entries Sample.relay_map) = false /\
  @replaced_text LiteralEngine this text = Sample.dq (js "b") /\
  @replaced_text LiteralEngine this (Sample.dq (js "b")) = Sample.dq (js "c").
Proof. vm_compute. auto. Qed.

(** So is the condition on the quote characters: a translation that holds
    the key between quotes is translated again. *)
Lemma idempotence_needs_quote_free_entries :
  let this := Sample.plugin Sample.nested_map in
  let once := @replaced_text LiteralEngine this (Sample.dq (js "x")) in
  quote_free_entries (plain_entries Sample.nested_map) = false /\
  no_translation_is_key (plain_entries Sample.nested_map) = true /\
  no_shared_quote (plain_entries Sample.nested_map) (Sample.dq (js "x"))
  = true /\
  @replaced_text LiteralEngine this once <> once.
Proof.
  intros this once. split; [reflexivity|]. split; [reflexivity|].
  split; [vm_compute; reflexivity|].
  intros H. vm_compute in H. discriminate H.
Qed.
